(** * nexus-apps, Chrome extension quote calculator: [extension-chrome/app.js]

    A shallow embedding of the script and the properties of its quote
    builder, its package ("forfait") estimator and its price grid.

    Conventions of the embedding.
    - A JavaScript Number is an IEEE 754 binary64 value: Rocq's primitive
      [float], with its rounding, its infinities, its signed zeros and NaN.
    - A JavaScript String is a [string]; non-ASCII characters appear as
      their UTF-8 bytes.
    - An ordinary object used as a dictionary is the list of its own
      properties in the order [Object.entries] enumerates them, together
      with the members every object inherits from [Object.prototype].
    - The two globals [lignes] and [ligneId] form the [State]; each function
      of the script that changes them is a function on [State].  Line ids
      are counted in [Z]: the counter starts at 0 and grows by one per
      added line, and binary64 counts exactly up to [2^53], more lines
      than a session can add.
    - Writes to the page (innerHTML, textContent) are not part of the
      state; [calcTotal] and [calcForfait] return the numbers they format. *)

From Stdlib Require Import ZArith List String Ascii Bool Lia Permutation Sorted
  Floats.
Import ListNotations.
Open Scope string_scope.
Open Scope list_scope.
Open Scope Z_scope.

(* ================================================================== *)
(** * JavaScript values used by the script                             *)
(* ================================================================== *)

Module Js.

(** ** Numbers *)

(** [ToBoolean] on a Number: [+0], [-0] and [NaN] are falsy. *)
Definition num_truthy (x : float) : bool :=
  negb (is_nan x || is_zero x).

(** [x || 0] on a Number [x]. *)
Definition or_zero (x : float) : float :=
  if num_truthy x then x else 0%float.

(** The Number nearest to the integer [z] (ties to even), the rounding
    every conversion to Number applies. *)
Definition of_Z (z : Z) : float :=
  SF2Prim (binary_normalize prec emax z 0 false).

(** The Number nearest to [m * 2^e]. *)
Definition of_dyadic (m e : Z) : float :=
  SF2Prim (binary_normalize prec emax m e false).

(** The Number nearest to the decimal [m * 10^e], for [0 <= m], negated
    when [neg].  A negative power of ten is divided out with 64 guard bits
    and a sticky bit, so that the single rounding of [binary_normalize] is
    the rounding of the exact quotient. *)
Definition of_decimal (neg : bool) (m e : Z) : float :=
  let sgn (z : Z) := if neg then Z.opp z else z in
  if m =? 0 then (if neg then neg_zero else zero)
  else if 0 <=? e then
    SF2Prim (binary_normalize prec emax (sgn (m * 10 ^ e)) 0 false)
  else
    let d := 10 ^ (- e) in
    let k := Z.log2 d + 64 in
    let q := (m * 2 ^ k) / d in
    let r := (m * 2 ^ k) mod d in
    let sticky := if r =? 0 then 0 else 1 in
    SF2Prim (binary_normalize prec emax (sgn (2 * q + sticky)) (- k - 1) false).

(** ** Strings *)

(** [ToBoolean] on a String: only the empty string is falsy. *)
Definition str_truthy (s : string) : bool :=
  match s with EmptyString => false | String _ _ => true end.

Definition byte (c : ascii) : Z := Z.of_nat (nat_of_ascii c).

(** Leading white space and line terminators ([StrWhiteSpaceChar]) are
    skipped by [parseFloat] and [parseInt]: TAB, LF, VT, FF, CR, SP, and in
    UTF-8 the code points U+00A0, U+1680, U+2000..U+200A, U+2028, U+2029,
    U+202F, U+205F, U+3000 and U+FEFF. *)
Fixpoint trim_start (s : string) : string :=
  match s with
  | String a r =>
      let x := byte a in
      if ((9 <=? x) && (x <=? 13)) || (x =? 32) then trim_start r
      else
        match r with
        | String b r1 =>
            let y := byte b in
            if (x =? 194) && (y =? 160) then trim_start r1
            else
              match r1 with
              | String c r2 =>
                  let z := byte c in
                  if ((x =? 225) && (y =? 154) && (z =? 128))
                     || ((x =? 226) && (y =? 128)
                         && (((128 <=? z) && (z <=? 138)) || (z =? 168)
                             || (z =? 169) || (z =? 175)))
                     || ((x =? 226) && (y =? 129) && (z =? 159))
                     || ((x =? 227) && (y =? 128) && (z =? 128))
                     || ((x =? 239) && (y =? 187) && (z =? 191))
                  then trim_start r2
                  else s
              | EmptyString => s
              end
        | EmptyString => s
        end
  | EmptyString => s
  end.

(** The value of a digit in the given radix, if the character is one. *)
Definition digit_val (radix : Z) (c : ascii) : option Z :=
  let x := byte c in
  let v := if (48 <=? x) && (x <=? 57) then x - 48
           else if (97 <=? x) && (x <=? 122) then x - 87
           else if (65 <=? x) && (x <=? 90) then x - 55
           else radix in
  if v <? radix then Some v else None.

(** The longest prefix of digits of [s]: its value continuing from [acc],
    how many digits were read, and the rest of the string. *)
Fixpoint read_digits (radix : Z) (s : string) (acc : Z) (cnt : Z)
  : Z * Z * string :=
  match s with
  | String c r =>
      match digit_val radix c with
      | Some v => read_digits radix r (acc * radix + v) (cnt + 1)
      | None => (acc, cnt, s)
      end
  | EmptyString => (acc, cnt, s)
  end.

(** An optional sign: whether it is a minus, and the rest. *)
Definition read_sign (s : string) : bool * string :=
  match s with
  | String c r =>
      if byte c =? 45 then (true, r)
      else if byte c =? 43 then (false, r)
      else (false, s)
  | EmptyString => (false, s)
  end.

(** An [ExponentPart] at the head of [s], if there is a complete one:
    [e] or [E], an optional sign and at least one digit. *)
Definition read_exponent (s : string) : Z :=
  match s with
  | String c r =>
      if (byte c =? 101) || (byte c =? 69) then
        let '(neg, r1) := read_sign r in
        let '(v, cnt, _) := read_digits 10 r1 0 0 in
        if 0 <? cnt then (if neg then - v else v) else 0
      else 0
  | EmptyString => 0
  end.

(** [parseFloat(s)]: the Number of the longest prefix of the trimmed
    string that is a [StrDecimalLiteral], [NaN] when there is none.  The
    decimal is rounded to the nearest Number, ties to even, whatever the
    count of its digits. *)
Definition parseFloat (s : string) : float :=
  let '(neg, s1) := read_sign (trim_start s) in
  if prefix "Infinity" s1 then (if neg then neg_infinity else infinity)
  else
    let '(ip, icnt, s2) := read_digits 10 s1 0 0 in
    let '(m, fcnt, s3) :=
      match s2 with
      | String c r =>
          if byte c =? 46 then read_digits 10 r ip 0 else (ip, 0, s2)
      | EmptyString => (ip, 0, s2)
      end in
    if (icnt =? 0) && (fcnt =? 0) then nan
    else of_decimal neg m (read_exponent s3 - fcnt).

(** [parseInt(s)] with no radix: an optional sign, an optional [0x] that
    selects radix 16, then the longest prefix of digits; [NaN] when there
    is no digit. *)
Definition parseInt (s : string) : float :=
  let '(neg, s1) := read_sign (trim_start s) in
  let '(radix, s2) :=
    match s1 with
    | String a (String b r) =>
        if (byte a =? 48) && ((byte b =? 120) || (byte b =? 88))
        then (16, r) else (10, s1)
    | _ => (10, s1)
    end in
  let '(v, cnt, _) := read_digits radix s2 0 0 in
  if cnt =? 0 then nan else of_decimal neg v 0.

(** ** Formatting *)

(** The decimal digits of [n >= 0], written in front of [acc]. *)
Fixpoint digits_fuel (fuel : nat) (n : Z) (acc : string) : string :=
  match fuel with
  | O => acc
  | S f =>
      let acc' := String (ascii_of_nat (Z.to_nat (48 + n mod 10))) acc in
      if n <? 10 then acc' else digits_fuel f (n / 10) acc'
  end.

Definition dec_string (n : Z) : string :=
  digits_fuel (S (Z.to_nat (Z.log2 n))) n "".

(** [n], a count of hundredths, written with two decimals. *)
Definition hundredths (n : Z) : string :=
  let units := dec_string (n / 100) in
  let d := dec_string (n mod 100) in
  let pad := if n mod 100 <? 10 then "0" else "" in
  (units ++ "." ++ pad ++ d)%string.

(** [x.toFixed(2)]: the integer [n] for which [n / 100] is nearest to the
    exact value of [x], the larger one on a tie, written with two
    decimals.  From [10^21] on, [toFixed] hands over to [ToString] and its
    exponent notation, which is left out here ([None]). *)
Definition toFixed2 (x : float) : option string :=
  match Prim2SF x with
  | S754_nan => Some "NaN"
  | S754_infinity s => Some (if s then "-Infinity" else "Infinity")
  | S754_zero _ => Some "0.00"
  | S754_finite s m e =>
      let big := if 0 <=? e then 10 ^ 21 <=? Zpos m * 2 ^ e
                 else 10 ^ 21 * 2 ^ (- e) <=? Zpos m in
      if big then None
      else
        let n := if 0 <=? e then Zpos m * 2 ^ e * 100
                 else (Zpos m * 200 + 2 ^ (- e)) / 2 ^ (1 - e) in
        let sign := if s then "-" else "" in
        Some (sign ++ hundredths n)%string
  end.

End Js.

(* ================================================================== *)
(** * Objects used as dictionaries                                     *)
(* ================================================================== *)

Module Obj.

(** The own properties of an ordinary object, in the order of
    [Object.entries]: keys that are array indices first, in ascending
    numeric order, then the other keys in the order of their creation. *)
Definition t (V : Type) : Type := list (string * V).

(** What a property read [o[k]] finds. *)
Inductive prop (V : Type) : Type :=
| Undefined : prop V                 (* no such property: [undefined] *)
| Own : V -> prop V                  (* an own property *)
| Inherited : prop V.                (* a member of [Object.prototype] *)
Arguments Undefined {V}.
Arguments Own {V} _.
Arguments Inherited {V}.

(** The property names every ordinary object inherits. *)
Definition prototype_keys : list string :=
  [ "constructor"; "__defineGetter__"; "__defineSetter__"; "hasOwnProperty";
    "__lookupGetter__"; "__lookupSetter__"; "isPrototypeOf";
    "propertyIsEnumerable"; "toString"; "valueOf"; "__proto__";
    "toLocaleString" ].

Definition inherited (k : string) : bool :=
  existsb (String.eqb k) prototype_keys.

Fixpoint own {V} (o : t V) (k : string) : option V :=
  match o with
  | [] => None
  | (k', v) :: r => if String.eqb k' k then Some v else own r k
  end.

(** [o[k]]: the own property if there is one, else the inherited member. *)
Definition get {V} (o : t V) (k : string) : prop V :=
  match own o k with
  | Some v => Own v
  | None => if inherited k then Inherited else Undefined
  end.

(** [ToBoolean(o[k])] when own values are objects or arrays: everything
    but [undefined] is truthy (the inherited members are functions, and
    [__proto__] is an object). *)
Definition truthy {V} (p : prop V) : bool :=
  match p with Undefined => false | _ => true end.

(** A key is an array index when it is the canonical decimal form of an
    integer below [2^32 - 1]. *)
Definition array_index (k : string) : option Z :=
  match k with
  | EmptyString => None
  | String c r =>
      let '(v, cnt, rest) := Js.read_digits 10 k 0 0 in
      if Js.str_truthy rest then None
      else if (Js.byte c =? 48) && Js.str_truthy r then None
      else if v <? 4294967295 then Some v else None
  end.

(** Where a new key goes among the own properties. *)
Fixpoint insert_new {V} (k : string) (v : V) (o : t V) : t V :=
  match o with
  | [] => [(k, v)]
  | (k', v') :: r =>
      match array_index k, array_index k' with
      | Some n, Some n' =>
          if n <? n' then (k, v) :: o else (k', v') :: insert_new k v r
      | Some _, None => (k, v) :: o
      | None, _ => (k', v') :: insert_new k v r
      end
  end.

Fixpoint replace {V} (k : string) (v : V) (o : t V) : t V :=
  match o with
  | [] => []
  | (k', v') :: r =>
      if String.eqb k' k then (k', v) :: r else (k', v') :: replace k v r
  end.

(** [o[k] = v]: an existing own property keeps its place.  (Assigning to
    [__proto__] would set the prototype instead; the script never does.) *)
Definition set {V} (k : string) (v : V) (o : t V) : t V :=
  match own o k with
  | Some _ => replace k v o
  | None => insert_new k v o
  end.

(** The object an object literal [{ k1: v1, k2: v2, ... }] evaluates to. *)
Definition literal {V} (props : list (string * V)) : t V :=
  fold_left (fun o kv => set (fst kv) (snd kv) o) props [].

(** [Object.entries(o)]. *)
Definition entries {V} (o : t V) : list (string * V) := o.

End Obj.

(* ================================================================== *)
(** * The price list and the package rates                             *)
(* ================================================================== *)

Record Tarif : Type := mkTarif
  { libelle : string; tarif : float; unite : string; cat : string }.

Definition TARIFS_source : list (string * Tarif) :=
  [ ("AUD-001", mkTarif "Audit réglementaire de paie" 120 "€/h" "Audit");
    ("MIS-001", mkTarif "Mise en place dossier paie" 120 "€/h" "Audit");
    ("REP-001", mkTarif "Reprise de données paie" 120 "€/h" "Audit");
    ("BUL-001", mkTarif "Bulletin (1-20 sal.)" 20 "€/bul" "Bulletins");
    ("BUL-004", mkTarif "Bulletin (+20 sal.)" 15 "€/bul" "Bulletins");
    ("ENV-001", mkTarif "Envoi coffre-fort" 2 "€/sal" "Bulletins");
    ("ENV-002", mkTarif "Envoi papier" 2 "€/sal" "Bulletins");
    ("ENT-001", mkTarif "Entrée salarié" 15 "€/sal" "Gestion");
    ("STC-001", mkTarif "Sortie salarié (STC)" 50 "€/sal" "Gestion");
    ("MED-001", mkTarif "Affiliation médecine travail" 45 "€/soc" "Gestion");
    ("MUT-001", mkTarif "Affiliation mutuelle" 45 "€/org" "Gestion");
    ("ATT-001", mkTarif "Attestation maladie/AT" 20 "€/att" "Gestion");
    ("DAT-001", mkTarif "Déclaration AT" 30 "€/déc" "Gestion");
    ("PRV-001", mkTarif "Dossier prévoyance" 45 "€/dos" "Gestion");
    ("SIM-001", mkTarif "Simulation salaire" 50 "€/sim" "Gestion");
    ("BTP-001", mkTarif "Déclaration CP CI-BTP" 20 "€/sal" "BTP");
    ("BTP-002", mkTarif "Chômage intempéries" 20 "€/sal" "BTP");
    ("BTP-003", mkTarif "Radiation CI-BTP" 20 "€/sal" "BTP");
    ("CDI-001", mkTarif "CDI" 150 "€/ctr" "Contrats");
    ("CDD-001", mkTarif "CDD" 100 "€/ctr" "Contrats");
    ("SAI-001", mkTarif "Contrat saisonnier" 120 "€/ctr" "Contrats");
    ("AVE-001", mkTarif "Avenant (Nexus)" 70 "€/ave" "Contrats");
    ("AVE-002", mkTarif "Avenant (externe)" 80 "€/ave" "Contrats");
    ("DUE-001", mkTarif "DUE Prévoyance" 200 "€/doc" "DUE");
    ("DUE-002", mkTarif "DUE Frais de santé" 200 "€/doc" "DUE");
    ("DUE-003", mkTarif "DUE Retraite sup." 200 "€/doc" "DUE");
    ("DUE-004", mkTarif "DUE PPV" 275 "€/doc" "DUE");
    ("RUP-001", mkTarif "Rupture conventionnelle" 350 "€/dos" "Ruptures");
    ("LIC-001", mkTarif "Licenciement faute grave" 200 "€/dos" "Ruptures");
    ("LIC-002", mkTarif "Abandon de poste" 170 "€/dos" "Ruptures");
    ("LIC-003", mkTarif "Inaptitude" 500 "€/dos" "Ruptures");
    ("LIC-004", mkTarif "Licenciement éco." 750 "€/dos" "Ruptures");
    ("IND-001", mkTarif "Indemnité retraite" 110 "€/calc" "Indemnités");
    ("IND-002", mkTarif "Indemnité rup. conv." 165 "€/calc" "Indemnités");
    ("IND-003", mkTarif "Indemnité inaptitude" 220 "€/calc" "Indemnités");
    ("IND-004", mkTarif "Indemnité lic. éco." 330 "€/calc" "Indemnités");
    ("CON-001", mkTarif "Conseil RH" 120 "€/h" "Autres");
    ("FOR-001", mkTarif "Dossier OPCO" 150 "€/dos" "Autres") ].

(** [const TARIFS = { ... }]: the object the literal evaluates to. *)
Definition TARIFS : Obj.t Tarif :=
  Eval vm_compute in Obj.literal TARIFS_source.

Record ForfaitConfig : Type := mkForfaitConfig
  { bulletinMoins20 : float; bulletinPlus20 : float; coffreFort : float;
    entree : float; sortie : float }.

Definition FORFAIT_CONFIG : ForfaitConfig := mkForfaitConfig 20 15 2 15 50.

(** [p.tarif] for what [TARIFS[ref]] found: the inherited members have no
    such property, and [undefined] converts to [NaN] in a product. *)
Definition tarif_of (p : Obj.prop Tarif) : float :=
  match p with Obj.Own t => tarif t | _ => nan end.

(* ================================================================== *)
(** * The quote builder                                                *)
(* ================================================================== *)

Record Ligne : Type := mkLigne { id : Z; ref : string; qte : string }.

(** [let lignes = []; let ligneId = 0;] *)
Record State : Type := mkState { lignes : list Ligne; ligneId : Z }.

Definition init : State := mkState [] 0.

(** The two properties the handlers of a row set through [updateLigne]. *)
Inductive Field : Type := Fref | Fqte.

Definition set_field (f : Field) (value : string) (l : Ligne) : Ligne :=
  match f with
  | Fref => mkLigne (id l) value (qte l)
  | Fqte => mkLigne (id l) (ref l) value
  end.

(** [ligneId++; lignes.push({ id: ligneId, ref: '', qte: '' })] *)
Definition addLigne (st : State) : State :=
  let n := ligneId st + 1 in
  mkState (lignes st ++ [mkLigne n "" ""]) n.

(** [if (lignes.length > 1) lignes = lignes.filter(l => l.id !== id)] *)
Definition removeLigne (i : Z) (st : State) : State :=
  if (1 <? Z.of_nat (List.length (lignes st)))
  then mkState (filter (fun l => negb (id l =? i)) (lignes st)) (ligneId st)
  else st.

(** [lignes.find(l => l.id === id)]: the position of the first line with
    that id; the object found is the one stored at that position. *)
Fixpoint find_ligne (i : Z) (ls : list Ligne) : option nat :=
  match ls with
  | [] => None
  | l :: r => if id l =? i then Some O
              else option_map S (find_ligne i r)
  end.

(** [ligne[field] = value] on the object at position [n]. *)
Fixpoint assign_at (n : nat) (f : Field) (value : string) (ls : list Ligne)
  : list Ligne :=
  match ls, n with
  | [], _ => []
  | l :: r, O => set_field f value l :: r
  | l :: r, S n' => l :: assign_at n' f value r
  end.

(** [const ligne = lignes.find(...); if (ligne) { ligne[field] = value }] *)
Definition updateLigne (i : Z) (f : Field) (value : string) (st : State)
  : State :=
  match find_ligne i (lignes st) with
  | Some n => mkState (assign_at n f value (lignes st)) (ligneId st)
  | None => st
  end.

(** One step of the [reduce] in [calcTotal]:
    [(sum, l) => l.ref && l.qte && TARIFS[l.ref]
       ? sum + (TARIFS[l.ref].tarif * parseFloat(l.qte || 0)) : sum].
    In [l.qte || 0] the number 0 is what [parseFloat] would read as the
    string "0". *)
Definition total_step (sum : float) (l : Ligne) : float :=
  if Js.str_truthy (ref l) && Js.str_truthy (qte l)
     && Obj.truthy (Obj.get TARIFS (ref l))
  then (sum + tarif_of (Obj.get TARIFS (ref l))
              * Js.parseFloat (if Js.str_truthy (qte l) then qte l else "0"))%float
  else sum.

(** [calcTotal]: the [total] that is written, formatted, to the page. *)
Definition calcTotal (ls : list Ligne) : float :=
  fold_left total_step ls 0%float.

(** [total.toFixed(2) + ' €']: the text put in [total-ht] and [total-net]. *)
Definition total_text (ls : list Ligne) : option string :=
  option_map (fun s => (s ++ " €")%string) (Js.toFixed2 (calcTotal ls)).

(* ================================================================== *)
(** * The package estimator                                            *)
(* ================================================================== *)

(** What [calcForfait] reads from the form. *)
Record ForfaitForm : Type := mkForfaitForm
  { forf_sal : string; forf_in : string; forf_out : string;
    forf_coffre : bool }.

(** The rows of the breakdown, in the order they are written. *)
Inductive ResultLine : Type :=
| RBulletins (n prixBul mBul : float)
| RCoffre (n mCoffre : float)
| REntrees (entrees mIn : float)
| RSorties (sorties mOut : float).

Record Forfait : Type := mkForfait
  { f_n : float; f_entrees : float; f_sorties : float;
    f_prixBul : float;
    f_mBul : float; f_mCoffre : float; f_mIn : float; f_mOut : float;
    f_total : float;            (* shown in [forf-mens] *)
    f_annuel : float;           (* shown in [forf-an] *)
    f_details : list ResultLine }.

(** [n <= 20 ? FORFAIT_CONFIG.bulletinMoins20 : FORFAIT_CONFIG.bulletinPlus20] *)
Definition prixBul_of (n : float) : float :=
  if (n <=? 20)%float then bulletinMoins20 FORFAIT_CONFIG
  else bulletinPlus20 FORFAIT_CONFIG.

(** [calcForfait]: the three counts are [parseInt(...value) || 0]; the rows
    for hires and exits are written when [entrees > 0] and [sorties > 0],
    the total adds all four amounts. *)
Definition calcForfait (form : ForfaitForm) : Forfait :=
  let n := Js.or_zero (Js.parseInt (forf_sal form)) in
  let entrees := Js.or_zero (Js.parseInt (forf_in form)) in
  let sorties := Js.or_zero (Js.parseInt (forf_out form)) in
  let coffre := forf_coffre form in
  let prixBul := prixBul_of n in
  let mBul := (n * prixBul)%float in
  let mCoffre := if coffre then (n * coffreFort FORFAIT_CONFIG)%float
                 else 0%float in
  let mIn := (entrees * entree FORFAIT_CONFIG)%float in
  let mOut := (sorties * sortie FORFAIT_CONFIG)%float in
  let total := (mBul + mCoffre + mIn + mOut)%float in
  let html := [RBulletins n prixBul mBul]
              ++ (if coffre then [RCoffre n mCoffre] else [])
              ++ (if (0 <? entrees)%float then [REntrees entrees mIn] else [])
              ++ (if (0 <? sorties)%float then [RSorties sorties mOut] else []) in
  mkForfait n entrees sorties prixBul mBul mCoffre mIn mOut
            total (total * 12)%float html.

(* ================================================================== *)
(** * The price grid                                                   *)
(* ================================================================== *)

(** [{ ref, ...t }] *)
Record GrilleItem : Type := mkItem { item_ref : string; item : Tarif }.

(** One step of the [forEach] in [renderGrille]:
    [if (!cats[t.cat]) cats[t.cat] = []; cats[t.cat].push({ ref, ...t })].
    When [t.cat] names an inherited member, [cats[t.cat]] is truthy but has
    no [push]: the call throws a TypeError, [None] here. *)
Definition grille_step (cats : option (Obj.t (list GrilleItem)))
  (e : string * Tarif) : option (Obj.t (list GrilleItem)) :=
  match cats with
  | None => None
  | Some c =>
      let k := cat (snd e) in
      let it := mkItem (fst e) (snd e) in
      match Obj.get c k with
      | Obj.Undefined => Some (Obj.set k [it] c)
      | Obj.Own items => Some (Obj.set k (items ++ [it]) c)
      | Obj.Inherited => None
      end
  end.

(** The groups [renderGrille] renders, over a given price list:
    [Object.entries(cats)] after the [forEach] over
    [Object.entries(TARIFS)]. *)
Definition grille_of (T : Obj.t Tarif)
  : option (list (string * list GrilleItem)) :=
  option_map Obj.entries (fold_left grille_step (Obj.entries T) (Some [])).

Definition renderGrille : option (list (string * list GrilleItem)) :=
  grille_of TARIFS.


(* ================================================================== *)
(** * Runs of the quote builder                                        *)
(* ================================================================== *)

(** The calls the page makes on the quote builder. *)
Inductive Op : Type :=
| OpAdd
| OpRemove (i : Z)
| OpUpdate (i : Z) (f : Field) (value : string).

Definition step (st : State) (o : Op) : State :=
  match o with
  | OpAdd => addLigne st
  | OpRemove i => removeLigne i st
  | OpUpdate i f value => updateLigne i f value st
  end.

Definition run (ops : list Op) (st : State) : State :=
  fold_left step ops st.

Definition ids (st : State) : list Z := map id (lignes st).



(* ================================================================== *)
(** * Grouping by category, as a specification                         *)
(* ================================================================== *)

(** The names of a list in first-seen order: each once, at the place of
    its first occurrence. *)
Fixpoint first_seen (l : list string) : list string :=
  match l with
  | [] => []
  | x :: r => x :: filter (fun y => negb (String.eqb y x)) (first_seen r)
  end.

Definition cat_of (e : string * Tarif) : string := cat (snd e).

Definition item_of (e : string * Tarif) : GrilleItem := mkItem (fst e) (snd e).

(** The entries of one category, in the order of the price list. *)
Definition items_of (c : string) (es : list (string * Tarif)) : list GrilleItem :=
  map item_of (filter (fun e => String.eqb (cat_of e) c) es).

(** The grouping the specification describes. *)
Definition groups_of (es : list (string * Tarif))
  : list (string * list GrilleItem) :=
  map (fun c => (c, items_of c es)) (first_seen (map cat_of es)).

(** A key that is enumerated in creation order and does not collide with
    an inherited member. *)
Definition ordinary_key (k : string) : bool :=
  negb (Obj.inherited k)
  && match Obj.array_index k with None => true | Some _ => false end.

(* ================================================================== *)
(** * The total of a quote, as a specification                         *)
(* ================================================================== *)

(** The unit price of a service code, 0 when the code is unset or not in
    the price list. *)
Definition spec_price (r : string) : float :=
  match Obj.own TARIFS r with
  | Some t => tarif t
  | None => 0%float
  end.

(** The quantity of a line, 0 when it is unset or does not parse as a
    number. *)
Definition spec_qty (q : string) : float :=
  if negb (Js.str_truthy q) || is_nan (Js.parseFloat q) then 0%float
  else Js.parseFloat q.

(** The sum over all lines of unit price times quantity. *)
Definition spec_total (ls : list Ligne) : float :=
  fold_left (fun sum l => (sum + spec_price (ref l) * spec_qty (qte l))%float)
            ls 0%float.

(** A line as the row's controls deliver it: the quantity is empty or
    parses to a finite number, and the code is empty, a code of the price
    list, or at least not the name of an inherited member. *)
Definition line_ok (l : Ligne) : bool :=
  (negb (Js.str_truthy (qte l)) || is_finite (Js.parseFloat (qte l)))
  && match Obj.get TARIFS (ref l) with Obj.Inherited => false | _ => true end.

(* ================================================================== *)
(** * Numbers that binary64 holds exactly                              *)
(* ================================================================== *)

(** The number of binary digits of a mantissa. *)
Definition dg (m : positive) : Z := Zpos (digits2_pos m).

(** The binary64 float of sign [s] and magnitude [N * 2^E], for
    [N < 2^53], in canonical form. *)
Definition canon (s : bool) (N : positive) (E : Z) : spec_float :=
  S754_finite s (Z.to_pos (Zpos N * 2 ^ (53 - dg N))) (E + dg N - 53).

(** The binary64 float of value [z * 2^E]. *)
Definition rep (z E : Z) : spec_float :=
  match z with
  | Z0 => S754_zero false
  | Zpos N => canon false N E
  | Zneg N => canon true N E
  end.

Definition small (z : Z) : Prop := Z.abs z < 2 ^ 53.

Definition erange (E : Z) : Prop := -1022 <= E <= 0.

Definition SFfinite (x : spec_float) : bool :=
  match x with S754_zero _ | S754_finite _ _ _ => true | _ => false end.

Definition SFzero (x : spec_float) : bool :=
  match x with S754_zero _ => true | _ => false end.

(** The integer [k] when [x] is [k * 2^E]. *)
Definition to_units (E : Z) (x : float) : Z :=
  match Prim2SF x with
  | S754_finite s m e =>
      cond_Zopp s (if E <=? e then Zpos m * 2 ^ (e - E)
                   else Zpos m / 2 ^ (E - e))
  | _ => 0
  end.

(** [x] is a multiple of [2^E] of magnitude below [2^53] units. *)
Definition exact_at (E : Z) (x : float) : bool :=
  Leibniz.eqb x (Js.of_dyadic (to_units E x) E)
  && (Z.abs (to_units E x) <? 2 ^ 53).

(** Whether [calcTotal] adds anything for the line. *)
Definition counted (l : Ligne) : bool :=
  Js.str_truthy (ref l) && Js.str_truthy (qte l)
  && Obj.truthy (Obj.get TARIFS (ref l)).

(** The amount of a line in units of [2^E]. *)
Definition units (E : Z) (l : Ligne) : Z :=
  if counted l
  then to_units 0 (tarif_of (Obj.get TARIFS (ref l)))
       * to_units E (Js.parseFloat (qte l))
  else 0.

(** A line whose amount is computed without rounding at scale [2^E]: it
    is not counted, or its code is in the price list and its quantity is
    a multiple of [2^E]. *)
Definition line_exact (E : Z) (l : Ligne) : bool :=
  negb (counted l)
  || (match Obj.get TARIFS (ref l) with Obj.Own _ => true | _ => false end
      && exact_at E (Js.parseFloat (qte l))).

Definition sum_Z (l : list Z) : Z := fold_right Z.add 0 l.

Definition sum_abs (l : list Z) : Z := fold_right (fun z a => Z.abs z + a) 0 l.

(** A price of the list is a positive integer. *)
Definition tarif_entier (t : Tarif) : bool :=
  exact_at 0 (tarif t) && (0 <? to_units 0 (tarif t)).

(** The running total is never the negative zero. *)
Definition not_negzero (x : float) : Prop := Prim2SF x <> S754_zero true.

(* ================================================================== *)
(** * The rows of the quote builder, and the page                      *)
(* ================================================================== *)

(** One [<option>] of a row's select, after the placeholder. *)
Record SelectOption : Type := mkOption
  { opt_value : string; opt_selected : bool;
    opt_libelle : string; opt_tarif : float }.

(** One [div.ligne-row] of [renderLignes]. *)
Record LigneRow : Type := mkRow
  { row_id : Z;                      (* the id written into its handlers *)
    row_options : list SelectOption;
    row_qte : string;                (* the [value] of the number input *)
    row_total : option string;       (* the text of [span.total] *)
    row_remove : bool }.             (* the remove button, else a spacer *)

(** [const tarif = l.ref && TARIFS[l.ref] ? TARIFS[l.ref].tarif : 0] *)
Definition row_tarif (l : Ligne) : float :=
  if Js.str_truthy (ref l) && Obj.truthy (Obj.get TARIFS (ref l))
  then tarif_of (Obj.get TARIFS (ref l))
  else 0%float.

(** [tarif * parseFloat(l.qte)] *)
Definition row_amount (l : Ligne) : float :=
  (row_tarif l * Js.parseFloat (qte l))%float.

(** [const total = l.ref && l.qte ? (...).toFixed(2) : '-'], written as
    [total !== '-' ? total + '€' : '-']. *)
Definition row_text (l : Ligne) : option string :=
  let total := if Js.str_truthy (ref l) && Js.str_truthy (qte l)
               then Js.toFixed2 (row_amount l) else Some "-" in
  option_map (fun t => if String.eqb t "-" then "-" else (t ++ "€")%string)
             total.

(** The options of a row: one per entry of [Object.entries(TARIFS)],
    selected when [l.ref === ref]. *)
Definition row_options_of (l : Ligne) : list SelectOption :=
  map (fun e => mkOption (fst e) (String.eqb (ref l) (fst e))
                         (libelle (snd e)) (tarif (snd e)))
      (Obj.entries TARIFS).

(** [renderLignes]: one row per line; the remove button is written when
    [lignes.length > 1]. *)
Definition renderLignes (ls : list Ligne) : list LigneRow :=
  map (fun l => mkRow (id l) (row_options_of l) (qte l) (row_text l)
                      (1 <? Z.of_nat (List.length ls)))
      ls.



(** The globals together with what the script last wrote to the page:
    the rows in [lignes-container] and the text of [total-ht] (the same
    text goes to [total-net]). *)
Record Page : Type := mkPage
  { p_state : State; p_rows : list LigneRow; p_total : option string }.

(** [addLigne] with its [renderLignes()]. *)
Definition addLigne_page (p : Page) : Page :=
  let st := addLigne (p_state p) in
  mkPage st (renderLignes (lignes st)) (p_total p).

(** [removeLigne] with its [renderLignes(); calcTotal()], both inside the
    guard. *)
Definition removeLigne_page (i : Z) (p : Page) : Page :=
  if (1 <? Z.of_nat (List.length (lignes (p_state p))))
  then let st := removeLigne i (p_state p) in
       mkPage st (renderLignes (lignes st)) (total_text (lignes st))
  else p.

(** [updateLigne] with its [calcTotal()], inside the [if (ligne)]; the
    rows are not written again. *)
Definition updateLigne_page (i : Z) (f : Field) (value : string) (p : Page)
  : Page :=
  match find_ligne i (lignes (p_state p)) with
  | Some _ =>
      let st := updateLigne i f value (p_state p) in
      mkPage st (p_rows p) (total_text (lignes st))
  | None => p
  end.

Definition step_page (p : Page) (o : Op) : Page :=
  match o with
  | OpAdd => addLigne_page p
  | OpRemove i => removeLigne_page i p
  | OpUpdate i f value => updateLigne_page i f value p
  end.

Definition run_page (ops : list Op) (p : Page) : Page :=
  fold_left step_page ops p.

(** The page once the [DOMContentLoaded] handler has called [addLigne()]:
    the rows are rendered, the total still shows the text of the markup. *)
Definition load (markup_total : option string) : Page :=
  addLigne_page (mkPage init [] markup_total).


(* ================================================================== *)
(** * The texts of the package estimator                               *)
(* ================================================================== *)

(** The amount of a row of the breakdown. *)
Definition montant (r : ResultLine) : float :=
  match r with
  | RBulletins _ _ a | RCoffre _ a | REntrees _ a | RSorties _ a => a
  end.

(** The amounts of the rows written, added from the first to the last. *)
Definition details_sum (rows : list ResultLine) : float :=
  fold_left (fun s r => (s + montant r)%float) rows 0%float.

(** [total.toFixed(2) + ' €'] in [forf-mens] and
    [(total * 12).toFixed(2) + ' €'] in [forf-an]. *)
Definition forf_mens (form : ForfaitForm) : option string :=
  option_map (fun s => (s ++ " €")%string)
             (Js.toFixed2 (f_total (calcForfait form))).

Definition forf_an (form : ForfaitForm) : option string :=
  option_map (fun s => (s ++ " €")%string)
             (Js.toFixed2 (f_annuel (calcForfait form))).

(* ================================================================== *)
(** * Other readings of the quote builder                              *)
(* ================================================================== *)

(** [updateLigne] on the list, in one pass: the first line with the id
    gets the property. *)
Fixpoint update_first (i : Z) (f : Field) (value : string) (ls : list Ligne)
  : list Ligne :=
  match ls with
  | [] => []
  | l :: r => if id l =? i then set_field f value l :: r
              else l :: update_first i f value r
  end.

(** The rows agree with the list: same ids in the same order, and the
    remove button on every row exactly when there are two lines or more. *)
Definition rows_in_step (p : Page) : Prop :=
  map row_id (p_rows p) = ids (p_state p)
  /\ Forall (fun r => row_remove r
                      = (1 <? Z.of_nat (List.length (lignes (p_state p)))))
            (p_rows p).

(** The total shown is the total of the list. *)
Definition total_fresh (p : Page) : Prop :=
  p_total p = total_text (lignes (p_state p)).

Definition is_update (o : Op) : bool :=
  match o with OpUpdate _ _ _ => true | _ => false end.

(* ================================================================== *)
(** * Properties of the quote builder's list                           *)
(* ================================================================== *)

Section QuoteBuilder.

Lemma run_app ops1 ops2 st : run (ops1 ++ ops2) st = run ops2 (run ops1 st).
Proof. apply fold_left_app. Qed.


Lemma NoDup_filter {A} (p : A -> bool) (l : list A) :
  NoDup l -> NoDup (filter p l).
Proof.
  induction 1 as [|x l Hx Hl IH]; simpl; [constructor|].
  destruct (p x); [constructor|]; auto.
  rewrite filter_In. tauto.
Qed.

Lemma find_ligne_none i ls :
  find_ligne i ls = None <-> (forall l, In l ls -> id l <> i).
Proof.
  induction ls as [|l ls IH]; simpl.
  - split; [intros _ ? []|reflexivity].
  - destruct (id l =? i) eqn:E.
    + split; [discriminate|]. intros H. apply Z.eqb_eq in E.
      exfalso. apply (H l); auto.
    + apply Z.eqb_neq in E. split.
      * intros H x [<-|Hx]; [assumption|]. apply IH; [|assumption].
        destruct (find_ligne i ls); [discriminate|reflexivity].
      * intros H. replace (find_ligne i ls) with (@None nat); [reflexivity|].
        symmetry. apply IH. auto.
Qed.

Lemma find_ligne_some i ls n :
  find_ligne i ls = Some n ->
  exists l1 l l2, ls = l1 ++ l :: l2 /\ List.length l1 = n /\ id l = i
                  /\ (forall x, In x l1 -> id x <> i).
Proof.
  revert n. induction ls as [|l ls IH]; simpl; intros n H; [discriminate|].
  destruct (id l =? i) eqn:E.
  - injection H as <-. exists [], l, ls. apply Z.eqb_eq in E.
    repeat split; auto; intros ? [].
  - destruct (find_ligne i ls) as [m|]; [|discriminate].
    injection H as <-. destruct (IH m eq_refl) as (l1 & x & l2 & -> & <- & Hx & Hl1).
    exists (l :: l1), x, l2. repeat split; auto.
    intros y [<-|Hy]; [now apply Z.eqb_neq|auto].
Qed.

Lemma assign_at_app l1 l l2 f v :
  assign_at (List.length l1) f v (l1 ++ l :: l2) = l1 ++ set_field f v l :: l2.
Proof. induction l1 as [|x l1 IH]; simpl; [reflexivity|now rewrite IH]. Qed.

Lemma id_set_field f v l : id (set_field f v l) = id l.
Proof. now destruct f. Qed.

Lemma assign_at_ids n f v ls : map id (assign_at n f v ls) = map id ls.
Proof.
  revert n; induction ls as [|l ls IH]; intros [|n]; simpl; auto.
  - now rewrite id_set_field.
  - now rewrite IH.
Qed.

Lemma updateLigne_ids i f v st : ids (updateLigne i f v st) = ids st.
Proof.
  unfold updateLigne, ids. destruct (find_ligne i (lignes st)); [|reflexivity].
  simpl. apply assign_at_ids.
Qed.











Lemma filter_all {A} (p : A -> bool) (l : list A) :
  (forall x, In x l -> p x = true) -> filter p l = l.
Proof.
  induction l as [|x l IH]; simpl; intros H; [reflexivity|].
  rewrite (H x) by auto. f_equal. apply IH; auto.
Qed.



(** ** The list never becomes empty *)



(** ** [updateLigne] touches one property of one line *)

(** C5.  [updateLigne(id, field, value)] leaves the state as it is when no
    line has the id; otherwise it sets the named property of the first
    line with that id to the value, and the other property of that line,
    its id, every other line, the length and order of the list and the
    counter are unchanged. *)
Theorem updateLigne_frame (st : State) (i : Z) (f : Field) (value : string) :
  ((forall l, In l (lignes st) -> id l <> i) -> updateLigne i f value st = st)
  /\ ((exists l, In l (lignes st) /\ id l = i) ->
      exists l1 l l2,
        lignes st = l1 ++ l :: l2
        /\ (forall x, In x l1 -> id x <> i) /\ id l = i
        /\ updateLigne i f value st
           = mkState (l1 ++ set_field f value l :: l2) (ligneId st)
        /\ id (set_field f value l) = id l
        /\ match f with
           | Fref => ref (set_field f value l) = value
                     /\ qte (set_field f value l) = qte l
           | Fqte => qte (set_field f value l) = value
                     /\ ref (set_field f value l) = ref l
           end)
  /\ List.length (lignes (updateLigne i f value st)) = List.length (lignes st)
  /\ map id (lignes (updateLigne i f value st)) = map id (lignes st).
Proof.
  split; [|split; [|split]].
  - intros H. unfold updateLigne.
    now rewrite (proj2 (find_ligne_none i (lignes st)) H).
  - intros (l0 & Hin & Hid). unfold updateLigne.
    destruct (find_ligne i (lignes st)) as [n|] eqn:E.
    + destruct (find_ligne_some _ _ _ E) as (l1 & l & l2 & Hl & <- & Hi & Hl1).
      exists l1, l, l2. rewrite Hl at 2. rewrite assign_at_app.
      repeat split; auto; destruct f; simpl; repeat split; reflexivity.
    + exfalso. apply (proj1 (find_ligne_none i (lignes st)) E l0 Hin Hid).
  - rewrite <- (length_map id), <- (length_map id (lignes st)).
    f_equal. apply updateLigne_ids.
  - apply updateLigne_ids.
Qed.

Lemma updateLigne_frame_witness :
  updateLigne 7 Fqte "3" (mkState [mkLigne 1 "" ""; mkLigne 2 "BUL-001" ""] 2)
  = mkState [mkLigne 1 "" ""; mkLigne 2 "BUL-001" ""] 2
  /\ map id (lignes (updateLigne 2 Fqte "3"
                      (mkState [mkLigne 1 "" ""; mkLigne 2 "BUL-001" ""] 2)))
     = [1; 2].
Proof.
  split.
  - apply (proj1 (updateLigne_frame
                    (mkState [mkLigne 1 "" ""; mkLigne 2 "BUL-001" ""] 2)
                    7 Fqte "3")).
    simpl. intros l [<-|[<-|[]]]; simpl; lia.
  - apply (proj2 (proj2 (proj2 (updateLigne_frame
                    (mkState [mkLigne 1 "" ""; mkLigne 2 "BUL-001" ""] 2)
                    2 Fqte "3")))).
Defined.

(** ** Fresh ids *)


(** ** [removeLigne] removes one line *)



End QuoteBuilder.

(* ================================================================== *)
(** * Properties of the price grid                                     *)
(* ================================================================== *)

Section Grille.

Lemma first_seen_In l y : In y (first_seen l) <-> In y l.
Proof.
  induction l as [|x r IH]; simpl; [tauto|].
  rewrite filter_In, IH, negb_true_iff, String.eqb_neq.
  destruct (string_dec y x); intuition congruence.
Qed.

Lemma first_seen_NoDup l : NoDup (first_seen l).
Proof.
  induction l as [|x r IH]; simpl; constructor.
  - rewrite filter_In, String.eqb_refl. simpl. intros [_ H]; discriminate.
  - now apply NoDup_filter.
Qed.

Lemma first_seen_snoc l x :
  first_seen (l ++ [x])
  = if in_dec string_dec x l then first_seen l else first_seen l ++ [x].
Proof.
  induction l as [|a r IH]; simpl; [reflexivity|].
  rewrite IH. destruct (string_dec a x) as [->|Hax].
  - destruct (in_dec string_dec x r); [reflexivity|].
    rewrite filter_app; simpl. rewrite String.eqb_refl; simpl.
    now rewrite app_nil_r.
  - destruct (in_dec string_dec x r); [reflexivity|].
    rewrite filter_app; simpl.
    replace (String.eqb x a) with false
      by (symmetry; apply String.eqb_neq; congruence).
    reflexivity.
Qed.

Lemma items_of_snoc c p e :
  items_of c (p ++ [e])
  = if String.eqb (cat_of e) c then items_of c p ++ [item_of e]
    else items_of c p.
Proof.
  unfold items_of. rewrite filter_app; simpl.
  destruct (String.eqb (cat_of e) c); simpl.
  - now rewrite map_app.
  - now rewrite app_nil_r.
Qed.

Lemma items_of_absent c p : ~ In c (map cat_of p) -> items_of c p = [].
Proof.
  intros H. unfold items_of.
  replace (filter _ p) with (@nil (string * Tarif)); [reflexivity|].
  symmetry. induction p as [|e p IH]; simpl; [reflexivity|].
  simpl in H. destruct (String.eqb (cat_of e) c) eqn:E.
  - apply String.eqb_eq in E. tauto.
  - apply IH. tauto.
Qed.

(** Own properties of an object laid out as a table over distinct keys. *)
Lemma own_table {V} (g : string -> V) ks k :
  Obj.own (map (fun c => (c, g c)) ks) k
  = if in_dec string_dec k ks then Some (g k) else None.
Proof.
  induction ks as [|a r IH]; simpl; [reflexivity|].
  destruct (String.eqb a k) eqn:E.
  - apply String.eqb_eq in E. subst.
    now destruct (string_dec k k); [|congruence].
  - apply String.eqb_neq in E. rewrite IH.
    destruct (string_dec a k); [congruence|].
    now destruct (in_dec string_dec k r).
Qed.

Lemma insert_new_ordinary {V} k (v : V) o :
  Obj.array_index k = None -> Obj.insert_new k v o = o ++ [(k, v)].
Proof.
  intros H. induction o as [|[k' v'] r IH]; simpl; [reflexivity|].
  rewrite H. now rewrite IH.
Qed.

Lemma replace_table {V} (g : string -> V) ks k v :
  NoDup ks ->
  Obj.replace k v (map (fun c => (c, g c)) ks)
  = map (fun c => (c, if String.eqb c k then v else g c)) ks.
Proof.
  induction 1 as [|a r Ha Hr IH]; simpl; [reflexivity|].
  destruct (String.eqb a k) eqn:E.
  - f_equal. apply String.eqb_eq in E. subst.
    apply map_ext_in. intros c Hc.
    replace (String.eqb c k) with false; [reflexivity|].
    symmetry. apply String.eqb_neq. congruence.
  - now rewrite IH.
Qed.

(** The loop of [renderGrille] computes the specified grouping, for any
    price list whose category names are ordinary keys. *)
Lemma grille_fold (es : list (string * Tarif)) :
  (forall e, In e es -> ordinary_key (cat_of e) = true) ->
  fold_left grille_step es (Some []) = Some (groups_of es).
Proof.
  induction es as [|e p IH] using rev_ind; intros Hord; [reflexivity|].
  rewrite fold_left_app; simpl.
  rewrite IH by (intros; apply Hord, in_or_app; now left).
  assert (He : ordinary_key (cat_of e) = true)
    by (apply Hord, in_or_app; right; simpl; auto).
  apply andb_prop in He. destruct He as [Hinh Hidx].
  apply negb_true_iff in Hinh.
  destruct (Obj.array_index (cat_of e)) eqn:Eidx; [discriminate|clear Hidx].
  unfold grille_step, Obj.get, Obj.set, groups_of.
  fold (cat_of e). fold (item_of e).
  rewrite own_table, map_app. simpl (map cat_of [e]).
  rewrite first_seen_snoc.
  destruct (in_dec string_dec (cat_of e) (first_seen (map cat_of p))) as [Hin|Hout].
  - destruct (in_dec string_dec (cat_of e) (map cat_of p)) as [_|Hn];
      [|exfalso; apply Hn, first_seen_In, Hin].
    f_equal. rewrite replace_table by apply first_seen_NoDup.
    apply map_ext. intros c. rewrite items_of_snoc.
    rewrite (String.eqb_sym c).
    destruct (String.eqb (cat_of e) c) eqn:E; [|reflexivity].
    apply String.eqb_eq in E. now subst.
  - destruct (in_dec string_dec (cat_of e) (map cat_of p)) as [Hy|Hn];
      [exfalso; apply Hout, first_seen_In, Hy|].
    rewrite Hinh. f_equal. rewrite insert_new_ordinary by assumption.
    rewrite map_app; simpl. f_equal.
    + apply map_ext_in. intros c Hc. rewrite items_of_snoc.
      replace (String.eqb (cat_of e) c) with false; [reflexivity|].
      symmetry. apply String.eqb_neq. intros <-. apply Hout, Hc.
    + rewrite items_of_snoc, String.eqb_refl, items_of_absent by assumption.
      reflexivity.
Qed.

(** The groups partition the list: concatenated over distinct keys that
    cover every category, they are a rearrangement of it. *)
Lemma concat_groups_perm ks (es : list (string * Tarif)) :
  NoDup ks -> (forall e, In e es -> In (cat_of e) ks) ->
  Permutation (List.concat (map (fun c => items_of c es) ks)) (map item_of es).
Proof.
  intros Hnd. induction es as [|e r IH]; intros Hcov.
  - simpl. replace (List.concat _) with (@nil GrilleItem); [constructor|].
    symmetry. clear. induction ks; simpl; auto.
  - simpl. assert (Hin : In (cat_of e) ks) by (apply Hcov; simpl; auto).
    specialize (IH (fun x Hx => Hcov x (or_intror Hx))).
    apply Permutation_trans with (item_of e :: List.concat (map (fun c => items_of c r) ks));
      [|now constructor].
    clear IH Hcov. induction Hnd as [|a ks Ha Hnd IHk]; [destruct Hin|].
    simpl. unfold items_of at 1. simpl. fold (items_of a r).
    destruct (String.eqb (cat_of e) a) eqn:E.
    + apply String.eqb_eq in E. simpl. constructor.
      apply Permutation_app_head.
      replace (map (fun c => items_of c (e :: r)) ks)
        with (map (fun c => items_of c r) ks); [reflexivity|].
      apply map_ext_in. intros c Hc. unfold items_of; simpl.
      replace (String.eqb (cat_of e) c) with false; [reflexivity|].
      symmetry. apply String.eqb_neq. congruence.
    + apply String.eqb_neq in E. destruct Hin as [->|Hin]; [congruence|].
      apply Permutation_trans with
        (items_of a r ++ item_of e :: List.concat (map (fun c => items_of c r) ks)).
      * apply Permutation_app_head. now apply IHk.
      * symmetry. apply Permutation_middle.
Qed.

(** The grouping of any price list with ordinary category names. *)
Lemma grille_of_groups (T : Obj.t Tarif) :
  (forall e, In e (Obj.entries T) -> ordinary_key (cat_of e) = true) ->
  grille_of T = Some (groups_of (Obj.entries T))
  /\ map fst (groups_of (Obj.entries T))
     = first_seen (map cat_of (Obj.entries T))
  /\ NoDup (map fst (groups_of (Obj.entries T)))
  /\ (forall c items, In (c, items) (groups_of (Obj.entries T)) ->
        items = items_of c (Obj.entries T))
  /\ Permutation (List.concat (map snd (groups_of (Obj.entries T))))
                 (map item_of (Obj.entries T)).
Proof.
  intros Hord.
  assert (Hk : map fst (groups_of (Obj.entries T))
               = first_seen (map cat_of (Obj.entries T))).
  { unfold groups_of. rewrite map_map; simpl. apply map_id. }
  split; [|split; [exact Hk|split; [|split]]].
  - unfold grille_of. now rewrite grille_fold.
  - rewrite Hk. apply first_seen_NoDup.
  - unfold groups_of. intros c items Hin. apply in_map_iff in Hin.
    destruct Hin as (c' & E & _). now inversion E.
  - unfold groups_of. rewrite map_map; simpl.
    apply concat_groups_perm; [apply first_seen_NoDup|].
    intros e He. apply first_seen_In, in_map, He.
Qed.

(** C6.  On the price list of the script, [renderGrille] succeeds and
    yields one group per category: the categories in the order in which
    the list first mentions them, each with its entries in the order of
    the list, every entry in the group of its category and in no other,
    and all groups together a rearrangement of the list. *)
Theorem renderGrille_groups :
  Obj.entries TARIFS = TARIFS_source
  /\ exists groups,
       renderGrille = Some groups
       /\ map fst groups = first_seen (map cat_of TARIFS_source)
       /\ map fst groups
          = ["Audit"; "Bulletins"; "Gestion"; "BTP"; "Contrats"; "DUE";
             "Ruptures"; "Indemnités"; "Autres"]
       /\ NoDup (map fst groups)
       /\ (forall c items, In (c, items) groups ->
             items = items_of c TARIFS_source)
       /\ (forall e c items, In e TARIFS_source -> In (c, items) groups ->
             (In (item_of e) items <-> c = cat_of e))
       /\ Permutation (List.concat (map snd groups)) (map item_of TARIFS_source).
Proof.
  assert (HT : Obj.entries TARIFS = TARIFS_source) by (vm_compute; reflexivity).
  split; [exact HT|].
  assert (Hord : forall e, In e (Obj.entries TARIFS) ->
                           ordinary_key (cat_of e) = true).
  { apply Forall_forall. rewrite HT. unfold TARIFS_source.
    repeat (constructor; [vm_compute; reflexivity|]). constructor. }
  destruct (grille_of_groups TARIFS Hord) as (H1 & H2 & H3 & H4 & H5).
  rewrite HT in *. exists (groups_of TARIFS_source).
  split; [exact H1|]. split; [exact H2|].
  split; [rewrite H2; vm_compute; reflexivity|].
  split; [exact H3|]. split; [exact H4|]. split; [|exact H5].
  intros e c items He Hin. rewrite (H4 c items Hin). unfold items_of.
  rewrite in_map_iff. split.
  - intros (e' & E & He'). apply filter_In in He'. destruct He' as [_ He'].
    apply String.eqb_eq in He'. subst c. unfold item_of in E.
    inversion E. destruct e, e'; simpl in *; now subst.
  - intros ->. exists e. split; [reflexivity|].
    apply filter_In. split; [exact He|apply String.eqb_refl].
Qed.

End Grille.

(* ================================================================== *)
(** * Binary64 arithmetic: rounding, exactness and signs                *)
(* ================================================================== *)

Section Digits.

Lemma dg_bounds m : 2 ^ (dg m - 1) <= Zpos m < 2 ^ dg m.
Proof.
  unfold dg. induction m as [m IH|m IH|]; simpl digits2_pos.
  - rewrite Pos2Z.inj_succ.
    replace (Z.succ (Zpos (digits2_pos m)) - 1) with (Z.succ (Zpos (digits2_pos m) - 1)) by lia.
    rewrite !Z.pow_succ_r by lia. lia.
  - rewrite Pos2Z.inj_succ.
    replace (Z.succ (Zpos (digits2_pos m)) - 1) with (Z.succ (Zpos (digits2_pos m) - 1)) by lia.
    rewrite !Z.pow_succ_r by lia. lia.
  - simpl. lia.
Qed.

Lemma dg_pos m : 0 < dg m.
Proof. unfold dg; lia. Qed.

Lemma dg_unique m d : 2 ^ (d - 1) <= Zpos m < 2 ^ d -> dg m = d.
Proof.
  intros [Hl Hu]. pose proof (dg_bounds m) as [Hl' Hu']. pose proof (dg_pos m).
  assert (0 < d).
  { destruct (Z.lt_ge_cases 0 d); [assumption|].
    assert (2 ^ d <= 2 ^ 0) by (apply Z.pow_le_mono_r; lia). simpl in *; lia. }
  destruct (Z.lt_trichotomy (dg m) d) as [Hlt|[Heq|Hgt]]; [|assumption|].
  - assert (2 ^ dg m <= 2 ^ (d - 1)) by (apply Z.pow_le_mono_r; lia). lia.
  - assert (2 ^ d <= 2 ^ (dg m - 1)) by (apply Z.pow_le_mono_r; lia). lia.
Qed.

Lemma dg_shift m q k : 0 <= k -> Zpos m = Zpos q * 2 ^ k -> dg m = dg q + k.
Proof.
  intros Hk E. apply dg_unique. pose proof (dg_bounds q) as [Hl Hu]. pose proof (dg_pos q).
  rewrite E. replace (dg q + k - 1) with ((dg q - 1) + k) by lia.
  rewrite !Z.pow_add_r by lia.
  assert (0 < 2 ^ k) by (apply Z.pow_pos_nonneg; lia).
  split; [apply Z.mul_le_mono_nonneg_r|apply Z.mul_lt_mono_pos_r]; lia.
Qed.

Lemma dg_le m d : Zpos m < 2 ^ d -> dg m <= d.
Proof.
  intros H. pose proof (dg_bounds m) as [Hl _].
  destruct (Z.le_gt_cases (dg m) d); [assumption|].
  assert (2 ^ d <= 2 ^ (dg m - 1)).
  { destruct (Z.le_gt_cases 0 d).
    - apply Z.pow_le_mono_r; lia.
    - rewrite (Z.pow_neg_r 2 d) by lia. apply Z.pow_nonneg; lia. }
  lia.
Qed.

Lemma dg_ge m d : 2 ^ (d - 1) <= Zpos m -> d <= dg m.
Proof.
  intros H. pose proof (dg_bounds m) as [_ Hu]. pose proof (dg_pos m).
  destruct (Z.le_gt_cases d (dg m)); [assumption|].
  assert (2 ^ (dg m) <= 2 ^ (d - 1)) by (apply Z.pow_le_mono_r; lia). lia.
Qed.

Lemma iter_xO m d : Zpos (Pos.iter xO m d) = Zpos m * 2 ^ Zpos d.
Proof.
  induction d as [|d IH] using Pos.peano_ind.
  - simpl. lia.
  - rewrite Pos.iter_succ, Pos2Z.inj_succ, Z.pow_succ_r by lia.
    rewrite Pos2Z.inj_xO, IH. lia.
Qed.

End Digits.

Section Shr.

Lemma shr_1_exact q : 0 <= q ->
  shr_1 (Build_shr_record (2 * q) false false) = Build_shr_record q false false.
Proof. intros H. destruct q as [|q|q]; [reflexivity|reflexivity|lia]. Qed.

Lemma pow2_xO p : 2 ^ Zpos p~0 = 2 ^ Zpos p * 2 ^ Zpos p.
Proof. rewrite Pos2Z.inj_xO, <- Z.pow_add_r by lia. f_equal; lia. Qed.

Lemma pow2_xI p : 2 ^ Zpos p~1 = 2 * (2 ^ Zpos p * 2 ^ Zpos p).
Proof.
  rewrite Pos2Z.inj_xI, Z.pow_add_r, Z.pow_1_r by lia.
  change (2 * Zpos p) with (Zpos p~0). rewrite pow2_xO. lia.
Qed.

Lemma iter_shr_exact p : forall q, 0 <= q ->
  iter_pos shr_1 p (Build_shr_record (q * 2 ^ Zpos p) false false)
  = Build_shr_record q false false.
Proof.
  induction p as [p IH|p IH|]; intros q Hq.
  - rewrite pow2_xI.
    replace (q * (2 * (2 ^ Zpos p * 2 ^ Zpos p)))
      with (2 * ((q * 2 ^ Zpos p) * 2 ^ Zpos p)) by lia.
    cbn [iter_pos].
    rewrite shr_1_exact by (apply Z.mul_nonneg_nonneg; [apply Z.mul_nonneg_nonneg|]; lia).
    rewrite IH by (apply Z.mul_nonneg_nonneg; lia). now apply IH.
  - rewrite pow2_xO, Z.mul_assoc. cbn [iter_pos].
    rewrite IH by (apply Z.mul_nonneg_nonneg; lia). now apply IH.
  - change (2 ^ 1) with 2. rewrite Z.mul_comm. now apply shr_1_exact.
Qed.

Lemma shr_1_m mrs : 0 <= shr_m mrs -> shr_m (shr_1 mrs) = shr_m mrs / 2.
Proof.
  destruct mrs as [m r s]; simpl. intros H. rewrite <- Z.div2_div.
  destruct m as [|[p|p|]|p]; try reflexivity; lia.
Qed.

Lemma iter_shr_m p : forall mrs, 0 <= shr_m mrs ->
  shr_m (iter_pos shr_1 p mrs) = shr_m mrs / 2 ^ Zpos p.
Proof.
  assert (Hpp : forall p, 0 < 2 ^ Zpos p) by (intros; apply Z.pow_pos_nonneg; lia).
  assert (Hnn : forall p m, 0 <= m -> 0 <= m / 2 ^ Zpos p)
    by (intros; apply Z.div_pos; [assumption|apply Hpp]).
  induction p as [p IH|p IH|]; intros mrs H; cbn [iter_pos].
  - assert (H1 : 0 <= shr_m (shr_1 mrs)) by (rewrite shr_1_m by assumption; apply Z.div_pos; lia).
    rewrite IH by (rewrite IH by assumption; now apply Hnn).
    rewrite IH, shr_1_m by assumption.
    pose proof (Hpp p).
    rewrite !Z.div_div by lia.
    f_equal. rewrite pow2_xI. lia.
  - rewrite IH by (rewrite IH by assumption; now apply Hnn).
    rewrite IH by assumption.
    pose proof (Hpp p).
    rewrite !Z.div_div by lia.
    f_equal. rewrite pow2_xO. lia.
  - now apply shr_1_m.
Qed.

End Shr.

Section Round.

Lemma fexp64 x : fexp prec emax x = Z.max (x - 53) (-1074).
Proof. reflexivity. Qed.

Lemma shr_exact q e d : 0 <= q ->
  shr (Build_shr_record (q * 2 ^ Z.max 0 d) false false) e d
  = (Build_shr_record q false false, e + Z.max 0 d).
Proof.
  intros Hq. destruct d as [|p|p]; simpl shr.
  - simpl. now rewrite Z.mul_1_r, Z.add_0_r.
  - replace (Z.max 0 (Zpos p)) with (Zpos p) by lia.
    now rewrite iter_shr_exact.
  - replace (Z.max 0 (Zneg p)) with 0 by lia. simpl.
    now rewrite Z.mul_1_r, Z.add_0_r.
Qed.

Lemma shr_noop mrs e d : d <= 0 -> shr mrs e d = (mrs, e).
Proof. destruct d; simpl; intros; [reflexivity|lia|reflexivity]. Qed.

(** Rounding a mantissa whose low bits, down to its canonical exponent,
    are all zero drops them and nothing else. *)
Lemma round_aux_exact s m q e n :
  n = Z.max 0 (fexp prec emax (dg m + e) - e) ->
  Zpos m = Zpos q * 2 ^ n ->
  e + n <= 971 ->
  binary_round_aux prec emax s (Zpos m) e loc_Exact = S754_finite s q (e + n).
Proof.
  intros Hn Hm Hle. unfold binary_round_aux, shr_fexp.
  cbn [Zdigits2 shr_record_of_loc]. fold (dg m).
  rewrite Hm, Hn, shr_exact by lia. rewrite <- Hn.
  cbn [shr_m loc_of_shr_record round_nearest_even Zdigits2]. fold (dg q).
  assert (Hd : dg m = dg q + n) by (apply dg_shift; [lia|assumption]).
  rewrite shr_noop by (rewrite fexp64 in *; lia).
  cbn [shr_m]. unfold prec, emax.
  replace (e + n <=? 1024 - 53) with true by (symmetry; apply Z.leb_le; lia).
  reflexivity.
Qed.

Lemma shl_align_fst m e e' : e' <= e ->
  Zpos (fst (shl_align m e e')) = Zpos m * 2 ^ (e - e') /\ snd (shl_align m e e') = e'.
Proof.
  intros H. unfold shl_align. destruct (e' - e) as [|p|p] eqn:E; cbn [fst snd].
  - replace (e - e') with 0 by lia. rewrite Z.pow_0_r. split; lia.
  - lia.
  - rewrite iter_xO. replace (e - e') with (Zpos p) by lia. split; reflexivity.
Qed.

Lemma shl_align_noop m e e' : e <= e' -> shl_align m e e' = (m, e).
Proof.
  intros H. unfold shl_align. destruct (e' - e) as [|p|p] eqn:E; try reflexivity. lia.
Qed.

(** [binary_round] of a mantissa and exponent that denote [q * 2^c], with
    [c] the canonical exponent, is that float. *)
Lemma round_exact s m e q c :
  c = fexp prec emax (dg m + e) -> c <= 971 ->
  (c <= e /\ Zpos q = Zpos m * 2 ^ (e - c)) \/ (e <= c /\ Zpos m = Zpos q * 2 ^ (c - e)) ->
  binary_round prec emax s m e = S754_finite s q c.
Proof.
  intros Hc Hle H. unfold binary_round. fold (dg m). rewrite <- Hc.
  destruct H as [[Hce Hq]|[Hec Hm]].
  - destruct (shl_align_fst m e c Hce) as [H1 H2].
    destruct (shl_align m e c) as [mz ez]. simpl in H1, H2. subst ez.
    assert (mz = q) by (apply Pos2Z.inj; rewrite H1, Hq; reflexivity). subst mz.
    assert (Hd : dg q = dg m + (e - c)) by (apply dg_shift; [lia|assumption]).
    rewrite (round_aux_exact s q q c 0); [f_equal; lia| |simpl; lia|lia].
    rewrite Hd. replace (dg m + (e - c) + c) with (dg m + e) by lia. lia.
  - rewrite shl_align_noop by assumption.
    rewrite (round_aux_exact s m q e (c - e)); [f_equal; lia|lia|assumption|lia].
Qed.

End Round.

Section Exact.

Lemma pow2_pos k : 0 <= k -> 0 < 2 ^ k.
Proof. intros; apply Z.pow_pos_nonneg; lia. Qed.

Lemma canon_mantissa N : Zpos N < 2 ^ 53 ->
  Zpos (Z.to_pos (Zpos N * 2 ^ (53 - dg N))) = Zpos N * 2 ^ (53 - dg N)
  /\ 1 <= dg N <= 53.
Proof.
  intros H. pose proof (dg_le N 53 H). pose proof (dg_pos N).
  split; [|lia]. apply Z2Pos.id.
  pose proof (pow2_pos (53 - dg N)). nia.
Qed.

Lemma round_shift s N M k E :
  Zpos N < 2 ^ 53 -> 0 <= k -> erange E -> Zpos M = Zpos N * 2 ^ k ->
  binary_round prec emax s M (E - k) = canon s N E.
Proof.
  intros HN Hk [HE1 HE2] HM. destruct (canon_mantissa N HN) as [Hq Hd].
  assert (HdM : dg M = dg N + k) by (apply dg_shift; assumption).
  unfold canon. apply round_exact.
  - rewrite fexp64, HdM. lia.
  - lia.
  - rewrite Hq, HM. destruct (Z.le_gt_cases k (53 - dg N)).
    + left. split; [lia|]. rewrite <- Z.mul_assoc, <- Z.pow_add_r by lia.
      do 2 f_equal. lia.
    + right. split; [lia|]. rewrite <- Z.mul_assoc, <- Z.pow_add_r by lia.
      do 2 f_equal. lia.
Qed.

Lemma round_aux_shift s N M k E :
  Zpos N < 2 ^ 53 -> 53 - dg N <= k -> erange E -> Zpos M = Zpos N * 2 ^ k ->
  binary_round_aux prec emax s (Zpos M) (E - k) loc_Exact = canon s N E.
Proof.
  intros HN Hk [HE1 HE2] HM. destruct (canon_mantissa N HN) as [Hq Hd].
  assert (HdM : dg M = dg N + k) by (apply dg_shift; [lia|assumption]).
  unfold canon.
  rewrite (round_aux_exact s M (Z.to_pos (Zpos N * 2 ^ (53 - dg N))) (E - k)
             (dg N - 53 + k)).
  - f_equal. lia.
  - rewrite fexp64, HdM. lia.
  - rewrite Hq, HM. rewrite <- Z.mul_assoc, <- Z.pow_add_r by lia.
    do 2 f_equal. lia.
  - lia.
Qed.

Lemma normalize_shift S k E :
  small S -> 0 <= k -> erange E ->
  binary_normalize prec emax (S * 2 ^ k) (E - k) false = rep S E.
Proof.
  unfold small. intros HS Hk HE. pose proof (pow2_pos k Hk).
  destruct S as [|p|p].
  - reflexivity.
  - destruct (Zpos p * 2 ^ k) as [|M|M] eqn:EM; try lia.
    cbn [binary_normalize rep]. apply round_shift with (k := k); auto; lia.
  - destruct (Zneg p * 2 ^ k) as [|M|M] eqn:EM; try lia.
    cbn [binary_normalize rep]. apply round_shift with (k := k); auto; lia.
Qed.

Lemma normalize_rep S E :
  small S -> erange E -> binary_normalize prec emax S E false = rep S E.
Proof.
  intros. rewrite <- (normalize_shift S 0 E) by (auto; lia).
  f_equal; lia.
Qed.

Lemma rep_valid z E : small z -> erange E -> valid_binary (rep z E) = true.
Proof.
  unfold small. intros Hz [HE1 HE2].
  assert (Hc : forall s N, Zpos N < 2 ^ 53 -> valid_binary (canon s N E) = true).
  { intros s N HN. destruct (canon_mantissa N HN) as [Hq Hd].
    unfold canon, valid_binary, bounded, canonical_mantissa.
    fold (dg (Z.to_pos (Zpos N * 2 ^ (53 - dg N)))).
    assert (dg (Z.to_pos (Zpos N * 2 ^ (53 - dg N))) = dg N + (53 - dg N))
      by (apply dg_shift; [lia|assumption]).
    rewrite H, fexp64. apply andb_true_intro. split.
    - apply Z.eqb_eq. lia.
    - apply Z.leb_le. unfold emax, prec. lia. }
  destruct z; unfold rep; [reflexivity|apply (Hc false); lia|apply (Hc true); lia].
Qed.

Lemma cond_Zopp_mul s a b : cond_Zopp s a * b = cond_Zopp s (a * b).
Proof. destruct s; simpl; lia. Qed.

(** The aligned mantissa of a canonical float, in units of [2^ez]. *)
Lemma canon_align s N E ez :
  Zpos N < 2 ^ 53 -> ez <= E + dg N - 53 ->
  cond_Zopp s (Zpos (fst (shl_align (Z.to_pos (Zpos N * 2 ^ (53 - dg N)))
                                    (E + dg N - 53) ez)))
  = cond_Zopp s (Zpos N) * 2 ^ (E - ez).
Proof.
  intros HN Hez. destruct (canon_mantissa N HN) as [Hq Hd].
  destruct (shl_align_fst (Z.to_pos (Zpos N * 2 ^ (53 - dg N))) _ _ Hez) as [-> _].
  rewrite Hq, cond_Zopp_mul. f_equal.
  rewrite <- Z.mul_assoc, <- Z.pow_add_r by lia. do 2 f_equal. lia.
Qed.

Lemma SFadd_canon sa A sb B E :
  Zpos A < 2 ^ 53 -> Zpos B < 2 ^ 53 ->
  small (cond_Zopp sa (Zpos A) + cond_Zopp sb (Zpos B)) -> erange E ->
  SFadd prec emax (canon sa A E) (canon sb B E)
  = rep (cond_Zopp sa (Zpos A) + cond_Zopp sb (Zpos B)) E.
Proof.
  intros HA HB HS HE. unfold canon, SFadd.
  destruct (canon_mantissa A HA) as [_ HdA].
  destruct (canon_mantissa B HB) as [_ HdB].
  set (ez := Z.min (E + dg A - 53) (E + dg B - 53)).
  rewrite (canon_align sa A E ez), (canon_align sb B E ez) by (auto; lia).
  rewrite <- Z.mul_add_distr_r.
  replace ez with (E - (E - ez)) at 2 by lia.
  apply normalize_shift; auto. lia.
Qed.

(** Addition of two multiples of [2^E] is exact while the sum stays
    below [2^53] units. *)
Lemma SFadd_rep a b E :
  small a -> small b -> small (a + b) -> erange E ->
  SFadd prec emax (rep a E) (rep b E) = rep (a + b) E.
Proof.
  unfold small at 1 2. intros Ha Hb Hab HE.
  destruct a as [|A|A], b as [|B|B]; try reflexivity;
    unfold rep at 1 2;
    try (apply (SFadd_canon false _ false _ E); auto; lia);
    try (apply (SFadd_canon false _ true _ E); auto; lia);
    try (apply (SFadd_canon true _ false _ E); auto; lia);
    try (apply (SFadd_canon true _ true _ E); auto; lia).
Qed.

Lemma dg_mul A B : dg A + dg B - 1 <= dg (A * B).
Proof.
  apply dg_ge. pose proof (dg_bounds A) as [HA _]. pose proof (dg_bounds B) as [HB _].
  pose proof (dg_pos A). pose proof (dg_pos B).
  replace (dg A + dg B - 1 - 1) with ((dg A - 1) + (dg B - 1)) by lia.
  rewrite Z.pow_add_r, Pos2Z.inj_mul by lia.
  apply Z.mul_le_mono_nonneg; try assumption; apply Z.pow_nonneg; lia.
Qed.

Lemma SFmul_canon sa A sb B E1 E2 :
  Zpos A < 2 ^ 53 -> Zpos B < 2 ^ 53 -> Zpos (A * B) < 2 ^ 53 ->
  erange (E1 + E2) ->
  SFmul prec emax (canon sa A E1) (canon sb B E2)
  = canon (xorb sa sb) (A * B) (E1 + E2).
Proof.
  intros HA HB HAB HE. unfold canon at 1 2. cbn [SFmul].
  destruct (canon_mantissa A HA) as [HqA HdA].
  destruct (canon_mantissa B HB) as [HqB HdB].
  pose proof (dg_mul A B) as Hd. pose proof (dg_le _ _ HAB).
  replace (E1 + dg A - 53 + (E2 + dg B - 53))
    with ((E1 + E2) - (106 - dg A - dg B)) by lia.
  apply round_aux_shift; auto; [lia|].
  rewrite Pos2Z.inj_mul, HqA, HqB, Pos2Z.inj_mul.
  replace (106 - dg A - dg B) with ((53 - dg A) + (53 - dg B)) by lia.
  rewrite Z.pow_add_r by lia. ring.
Qed.

(** Multiplication of a multiple of [2^E1] by a multiple of [2^E2] is
    exact while the product stays below [2^53] units; a zero factor must
    not meet a negative one, whose product is [-0]. *)
Lemma SFmul_rep a b E1 E2 :
  (a = 0 -> 0 <= b) -> (b = 0 -> 0 <= a) ->
  small a -> small b -> small (a * b) -> erange (E1 + E2) ->
  SFmul prec emax (rep a E1) (rep b E2) = rep (a * b) (E1 + E2).
Proof.
  unfold small. intros Hza Hzb Ha Hb Hab HE.
  destruct a as [|A|A], b as [|B|B]; try reflexivity;
    try (specialize (Hza eq_refl); lia); try (specialize (Hzb eq_refl); lia).
  - apply (SFmul_canon false A false B); auto; lia.
  - apply (SFmul_canon false A true B); auto; lia.
  - apply (SFmul_canon true A false B); auto; lia.
  - apply (SFmul_canon true A true B); auto; lia.
Qed.

Lemma mul_compare_r a b p : 0 < p -> (a * p ?= b * p) = (a ?= b).
Proof.
  intros Hp. destruct (Z.compare_spec a b) as [->|H|H].
  - apply Z.compare_refl.
  - apply Z.compare_lt_iff. nia.
  - apply Z.compare_gt_iff. nia.
Qed.

Lemma canon_compare A B E :
  Zpos A < 2 ^ 53 -> Zpos B < 2 ^ 53 ->
  match E + dg A - 53 ?= E + dg B - 53 with
  | Lt => Lt
  | Gt => Gt
  | Eq => Pos.compare_cont Eq (Z.to_pos (Zpos A * 2 ^ (53 - dg A)))
                              (Z.to_pos (Zpos B * 2 ^ (53 - dg B)))
  end = Pos.compare A B.
Proof.
  intros HA HB.
  destruct (canon_mantissa A HA) as [HqA HdA].
  destruct (canon_mantissa B HB) as [HqB HdB].
  pose proof (dg_bounds A) as [HlA HuA]. pose proof (dg_bounds B) as [HlB HuB].
  destruct (Z.compare_spec (E + dg A - 53) (E + dg B - 53)) as [He|He|He].
  - change (Pos.compare_cont Eq ?x ?y) with (Pos.compare x y).
    rewrite !Pos2Z.inj_compare, HqA, HqB.
    replace (dg B) with (dg A) by lia.
    apply mul_compare_r, pow2_pos. lia.
  - symmetry. apply Pos.compare_lt_iff.
    assert (2 ^ dg A <= 2 ^ (dg B - 1)) by (apply Z.pow_le_mono_r; lia). lia.
  - symmetry. apply Pos.compare_gt_iff.
    assert (2 ^ dg B <= 2 ^ (dg A - 1)) by (apply Z.pow_le_mono_r; lia). lia.
Qed.

(** Comparison of multiples of [2^E] is comparison of the integers. *)
Lemma SFcompare_rep a b E :
  small a -> small b -> SFcompare (rep a E) (rep b E) = Some (a ?= b).
Proof.
  unfold small. intros Ha Hb.
  destruct a as [|A|A], b as [|B|B]; try reflexivity; unfold rep, canon;
    cbn [SFcompare]; f_equal.
  - apply canon_compare; lia.
  - change (Zneg A ?= Zneg B) with (CompOpp (Pos.compare A B)).
    rewrite <- (canon_compare A B E) by lia.
    now destruct (E + dg A - 53 ?= E + dg B - 53).
Qed.

End Exact.

Section Sign.

Lemma shr_m_div mrs e d : 0 <= shr_m mrs ->
  shr_m (fst (shr mrs e d)) = shr_m mrs / 2 ^ Z.max 0 d
  /\ snd (shr mrs e d) = e + Z.max 0 d.
Proof.
  intros H. destruct d as [|p|p]; cbn [shr fst snd].
  - simpl. rewrite Z.div_1_r. split; lia.
  - replace (Z.max 0 (Zpos p)) with (Zpos p) by lia. split; [|reflexivity].
    now apply iter_shr_m.
  - replace (Z.max 0 (Zneg p)) with 0 by lia.
    rewrite Z.pow_0_r, Z.div_1_r. split; lia.
Qed.

Lemma rne_bounds m l : m <= round_nearest_even m l <= m + 1.
Proof.
  destruct l as [|[| |]]; simpl; try lia. destruct (Z.even m); lia.
Qed.

Lemma dg_mono a b : (a <= b)%positive -> dg a <= dg b.
Proof.
  intros H. apply dg_ge. pose proof (dg_bounds a) as [Hl _]. lia.
Qed.

Lemma div_pow2_pos m n : 0 <= n -> n < dg m -> 1 <= Zpos m / 2 ^ n.
Proof.
  intros Hn Hd. pose proof (dg_bounds m) as [Hl _].
  assert (2 ^ n <= 2 ^ (dg m - 1)) by (apply Z.pow_le_mono_r; lia).
  pose proof (pow2_pos n Hn).
  apply Z.div_le_lower_bound; lia.
Qed.

(** Rounding a non-zero mantissa that is not below the least subnormal
    gives a non-zero result of the same sign. *)
Lemma round_aux_sign s m e :
  -1074 < dg m + e ->
  (exists q e', binary_round_aux prec emax s (Zpos m) e loc_Exact = S754_finite s q e')
  \/ binary_round_aux prec emax s (Zpos m) e loc_Exact = S754_infinity s.
Proof.
  intros He. unfold binary_round_aux, shr_fexp.
  cbn [Zdigits2 shr_record_of_loc]. fold (dg m).
  set (d1 := fexp prec emax (dg m + e) - e).
  destruct (shr_m_div (Build_shr_record (Zpos m) false false) e d1) as [Hm1 He1];
    [simpl; lia|].
  destruct (shr _ e d1) as [mrs1 e1]. cbn [fst snd shr_m] in Hm1, He1.
  assert (Hd1 : Z.max 0 d1 < dg m).
  { unfold d1. rewrite fexp64. pose proof (dg_pos m). lia. }
  assert (H1 : 1 <= shr_m mrs1) by (rewrite Hm1; apply div_pow2_pos; lia).
  pose proof (rne_bounds (shr_m mrs1) (loc_of_shr_record mrs1)) as Hr.
  destruct (round_nearest_even (shr_m mrs1) (loc_of_shr_record mrs1))
    as [|m2|m2] eqn:Em2; try lia.
  cbn [Zdigits2 shr_record_of_loc]. fold (dg m2).
  set (d2 := fexp prec emax (dg m2 + e1) - e1).
  destruct (shr_m_div (Build_shr_record (Zpos m2) false false) e1 d2) as [Hm3 He3];
    [simpl; lia|].
  destruct (shr _ e1 d2) as [mrs3 e3]. cbn [fst snd shr_m] in Hm3, He3.
  assert (Hd2 : Z.max 0 d2 < dg m2).
  { unfold d2. rewrite fexp64. pose proof (dg_pos m2).
    destruct (Z.le_gt_cases d1 0) as [Hle|Hgt].
    - assert (Zpos m <= Zpos m2).
      { replace (Z.max 0 d1) with 0 in Hm1 by lia.
        rewrite Z.pow_0_r, Z.div_1_r in Hm1. lia. }
      assert (dg m <= dg m2) by (apply dg_mono; lia). lia.
    - unfold d1 in *. rewrite fexp64 in *. lia. }
  assert (H3 : 1 <= shr_m mrs3) by (rewrite Hm3; apply div_pow2_pos; lia).
  destruct (shr_m mrs3) as [|m3|m3]; try lia.
  destruct (e3 <=? emax - prec); [left; eauto|right; reflexivity].
Qed.

Lemma round_sign s m e :
  -1074 <= e ->
  (exists q e', binary_round prec emax s m e = S754_finite s q e')
  \/ binary_round prec emax s m e = S754_infinity s.
Proof.
  intros He. unfold binary_round. fold (dg m). pose proof (dg_pos m).
  destruct (Z.le_gt_cases e (fexp prec emax (dg m + e))) as [Hle|Hgt].
  - rewrite shl_align_noop by assumption. apply round_aux_sign. lia.
  - destruct (shl_align_fst m e (fexp prec emax (dg m + e))) as [H1 H2]; [lia|].
    destruct (shl_align m e _) as [mz ez]. cbn [fst snd] in H1, H2. subst ez.
    apply round_aux_sign.
    assert (dg mz = dg m + (e - fexp prec emax (dg m + e)))
      by (apply dg_shift; [lia|assumption]).
    rewrite fexp64 in *. lia.
Qed.

Lemma valid_exponent s m e :
  valid_binary (S754_finite s m e) = true -> -1074 <= e.
Proof.
  unfold valid_binary, bounded, canonical_mantissa. intros H.
  apply andb_prop in H. destruct H as [H _]. apply Z.eqb_eq in H.
  rewrite fexp64 in H. lia.
Qed.

(** A sum is [-0] only when both terms are. *)
Lemma SFadd_not_negzero x y :
  valid_binary x = true -> valid_binary y = true ->
  x <> S754_zero true -> SFadd prec emax x y <> S754_zero true.
Proof.
  intros Hx Hy Hnz.
  destruct x as [sx|sx| |sx mx ex], y as [sy|sy| |sy my ey];
    try (simpl; congruence);
    try (destruct sx; simpl; congruence);
    try (destruct sx, sy; simpl; congruence).
  cbn [SFadd].
  set (ez := Z.min ex ey).
  apply valid_exponent in Hx. apply valid_exponent in Hy.
  match goal with |- binary_normalize _ _ ?M _ _ <> _ => destruct M as [|p|p] end;
    cbn [binary_normalize]; try discriminate.
  - destruct (round_sign false p ez) as [(q & e' & ->)| ->]; [lia|discriminate..].
  - destruct (round_sign true p ez) as [(q & e' & ->)| ->]; [lia|discriminate..].
Qed.

(** Adding a zero of either sign changes nothing, except on [-0]. *)
Lemma SFadd_zero_r x s :
  x <> S754_zero true -> SFadd prec emax x (S754_zero s) = x.
Proof.
  destruct x as [sx|sx| |sx mx ex]; try reflexivity.
  destruct sx, s; simpl; congruence.
Qed.

Lemma SFmul_zero x y :
  SFfinite x = true -> SFfinite y = true ->
  SFzero x = true \/ SFzero y = true ->
  SFzero (SFmul prec emax x y) = true.
Proof.
  destruct x, y; simpl; intros; try discriminate; try reflexivity;
    destruct H1; discriminate.
Qed.

End Sign.

Section Prim.

Lemma SFcompare_refl x : x <> S754_nan -> SFcompare x x = Some Eq.
Proof.
  destruct x as [s|s| |s m e]; intros H; try congruence; simpl.
  - reflexivity.
  - now destruct s.
  - rewrite Z.compare_refl, Pos.compare_cont_refl. now destruct s.
Qed.

Lemma is_nan_spec x :
  is_nan x = match Prim2SF x with S754_nan => true | _ => false end.
Proof.
  unfold is_nan. rewrite eqb_spec. unfold SFeqb.
  destruct (Prim2SF x) eqn:E; try reflexivity;
    rewrite SFcompare_refl by discriminate; reflexivity.
Qed.

Lemma is_zero_spec x : is_zero x = SFzero (Prim2SF x).
Proof.
  unfold is_zero. rewrite eqb_spec. change (Prim2SF zero) with (S754_zero false).
  unfold SFeqb. destruct (Prim2SF x) as [s|s| |s m e]; try reflexivity;
    destruct s; reflexivity.
Qed.

Lemma is_finite_spec x : is_finite x = SFfinite (Prim2SF x).
Proof.
  unfold is_finite, is_infinity. rewrite is_nan_spec, eqb_spec, abs_spec.
  change (Prim2SF infinity) with (S754_infinity false).
  destruct (Prim2SF x) as [s|s| |s m e]; reflexivity.
Qed.

Lemma SFcompare_antisym x y :
  SFcompare y x = option_map CompOpp (SFcompare x y).
Proof.
  destruct x as [sx|sx| |sx mx ex], y as [sy|sy| |sy my ey]; simpl;
    try reflexivity; try (destruct sx; reflexivity); try (destruct sy; reflexivity);
    try (destruct sx, sy; reflexivity).
  destruct sx, sy; try reflexivity; f_equal;
    rewrite (Z.compare_antisym ex ey);
    destruct (ex ?= ey) eqn:E; simpl; try reflexivity.
  - f_equal. symmetry. apply (Pos.compare_cont_antisym mx my Eq).
  - symmetry. apply (Pos.compare_cont_antisym mx my Eq).
Qed.

(** On numbers ([NaN] apart) [x <= y] is the negation of [y < x]. *)
Lemma leb_negb_ltb x y :
  is_nan x = false -> is_nan y = false -> (x <=? y)%float = negb (y <? x)%float.
Proof.
  rewrite !is_nan_spec, leb_spec, ltb_spec. unfold SFleb, SFltb.
  rewrite (SFcompare_antisym (Prim2SF x) (Prim2SF y)). intros Hx Hy.
  destruct (Prim2SF x) as [sx|sx| |sx mx ex] eqn:Ex; try discriminate;
  destruct (Prim2SF y) as [sy|sy| |sy my ey] eqn:Ey; try discriminate;
  destruct (SFcompare _ _) as [[| |]|] eqn:Ec; try reflexivity;
  simpl in Ec; try discriminate; destruct sx; try discriminate;
  destruct sy; discriminate.
Qed.

End Prim.

(* ================================================================== *)
(** * Numbers of the script: exact sums and products, zeros            *)
(* ================================================================== *)

Section Numbers.

Lemma of_dyadic_spec z E :
  small z -> erange E -> Prim2SF (Js.of_dyadic z E) = rep z E.
Proof.
  intros Hz HE. unfold Js.of_dyadic. rewrite normalize_rep by assumption.
  apply Prim2SF_SF2Prim, rep_valid; assumption.
Qed.

Lemma add_exact a b E :
  small a -> small b -> small (a + b) -> erange E ->
  (Js.of_dyadic a E + Js.of_dyadic b E)%float = Js.of_dyadic (a + b) E.
Proof.
  intros Ha Hb Hab HE. apply Prim2SF_inj.
  rewrite add_spec, !of_dyadic_spec by assumption.
  now apply SFadd_rep.
Qed.

Lemma mul_exact a b E1 E2 :
  (a = 0 -> 0 <= b) -> (b = 0 -> 0 <= a) ->
  small a -> small b -> small (a * b) ->
  erange E1 -> erange E2 -> erange (E1 + E2) ->
  (Js.of_dyadic a E1 * Js.of_dyadic b E2)%float = Js.of_dyadic (a * b) (E1 + E2).
Proof.
  intros Hza Hzb Ha Hb Hab H1 H2 H12. apply Prim2SF_inj.
  rewrite mul_spec, !of_dyadic_spec by assumption.
  now apply SFmul_rep.
Qed.

Lemma leb_exact a b E :
  small a -> small b -> erange E ->
  (Js.of_dyadic a E <=? Js.of_dyadic b E)%float = (a <=? b).
Proof.
  intros Ha Hb HE. rewrite leb_spec, !of_dyadic_spec by assumption.
  unfold SFleb. rewrite SFcompare_rep by assumption.
  unfold Z.leb. now destruct (a ?= b).
Qed.

Lemma ltb_exact a b E :
  small a -> small b -> erange E ->
  (Js.of_dyadic a E <? Js.of_dyadic b E)%float = (a <? b).
Proof.
  intros Ha Hb HE. rewrite ltb_spec, !of_dyadic_spec by assumption.
  unfold SFltb. rewrite SFcompare_rep by assumption.
  unfold Z.ltb. now destruct (a ?= b).
Qed.

Lemma exact_at_spec E x :
  exact_at E x = true ->
  x = Js.of_dyadic (to_units E x) E /\ small (to_units E x).
Proof.
  unfold exact_at. intros H. apply andb_prop in H. destruct H as [H1 H2].
  split; [now apply Leibniz.eqb_spec|]. now apply Z.ltb_lt in H2.
Qed.

Lemma add_not_negzero x y : not_negzero x -> not_negzero (x + y)%float.
Proof.
  unfold not_negzero. intros H. rewrite add_spec.
  apply SFadd_not_negzero; auto using Prim2SF_valid.
Qed.

Lemma add_zero_r x c :
  not_negzero x -> SFzero (Prim2SF c) = true -> (x + c)%float = x.
Proof.
  unfold not_negzero. intros Hx Hc. apply Prim2SF_inj. rewrite add_spec.
  destruct (Prim2SF c) as [s| | |]; try discriminate.
  now apply SFadd_zero_r.
Qed.

Lemma mul_zero x y :
  is_finite x = true -> is_finite y = true ->
  is_zero x = true \/ is_zero y = true ->
  SFzero (Prim2SF (x * y)%float) = true.
Proof.
  rewrite !is_finite_spec, !is_zero_spec, mul_spec. apply SFmul_zero.
Qed.

Lemma is_finite_not_nan x : is_finite x = true -> is_nan x = false.
Proof.
  rewrite is_finite_spec, is_nan_spec. now destruct (Prim2SF x).
Qed.

End Numbers.

(* ================================================================== *)
(** * Properties of the quote total                                    *)
(* ================================================================== *)

Section Total.

Lemma own_In {V} (o : Obj.t V) k v : Obj.own o k = Some v -> In (k, v) o.
Proof.
  induction o as [|[k' v'] r IH]; simpl; [discriminate|].
  destruct (String.eqb k' k) eqn:E.
  - intros H; injection H as <-. apply String.eqb_eq in E. subst. now left.
  - intros H. right. now apply IH.
Qed.

(** [TARIFS] is the value of the object literal of the script, and lists
    its entries in the order they are written. *)
Lemma TARIFS_literal :
  TARIFS = Obj.literal TARIFS_source /\ Obj.entries TARIFS = TARIFS_source.
Proof. split; vm_compute; reflexivity. Qed.

(** Every price of the list is a positive integer, hence finite. *)
Lemma TARIFS_entiers r t :
  Obj.own TARIFS r = Some t -> tarif_entier t = true /\ is_finite (tarif t) = true.
Proof.
  intros H. apply own_In in H.
  assert (Hall : forallb (fun e => tarif_entier (snd e) && is_finite (tarif (snd e)))
                         TARIFS = true) by (vm_compute; reflexivity).
  rewrite forallb_forall in Hall. apply Hall in H. now apply andb_prop in H.
Qed.

Lemma get_own {V} (o : Obj.t V) k v : Obj.get o k = Obj.Own v <-> Obj.own o k = Some v.
Proof.
  unfold Obj.get. destruct (Obj.own o k); [|destruct (Obj.inherited k)];
    split; intros H; try discriminate; congruence.
Qed.

Lemma spec_price_finite r : is_finite (spec_price r) = true.
Proof.
  unfold spec_price. destruct (Obj.own TARIFS r) eqn:E; [|reflexivity].
  now apply TARIFS_entiers in E.
Qed.

Lemma spec_qty_finite q :
  negb (Js.str_truthy q) || is_finite (Js.parseFloat q) = true ->
  is_finite (spec_qty q) = true.
Proof.
  unfold spec_qty. intros H. destruct (Js.str_truthy q); cbn [negb orb] in *;
    [|reflexivity].
  rewrite (is_finite_not_nan _ H). exact H.
Qed.

Lemma spec_qty_set q :
  Js.str_truthy q = true -> is_finite (Js.parseFloat q) = true ->
  spec_qty q = Js.parseFloat q.
Proof.
  intros Hq Hf. unfold spec_qty. now rewrite Hq, (is_finite_not_nan _ Hf).
Qed.

Lemma spec_qty_unset q : Js.str_truthy q = false -> spec_qty q = 0%float.
Proof. intros Hq. unfold spec_qty. now rewrite Hq. Qed.

Lemma spec_price_unset r : Js.str_truthy r = false -> spec_price r = 0%float.
Proof.
  destruct r; [intros _|discriminate]. vm_compute. reflexivity.
Qed.

(** On a well-formed line the step of [calcTotal] adds the line's price
    times its quantity. *)
Lemma total_step_spec sum l :
  line_ok l = true -> not_negzero sum ->
  total_step sum l = (sum + spec_price (ref l) * spec_qty (qte l))%float.
Proof.
  unfold line_ok. intros Hok Hs. apply andb_prop in Hok. destruct Hok as [Hq Hr].
  pose proof (spec_qty_finite _ Hq) as Hqf.
  pose proof (spec_price_finite (ref l)) as Hpf.
  assert (Hz : is_zero 0%float = true) by (vm_compute; reflexivity).
  unfold total_step.
  destruct (Js.str_truthy (ref l)) eqn:Er; cbn [andb];
    [|symmetry; apply add_zero_r; [assumption|];
      apply mul_zero; try assumption; left;
      rewrite spec_price_unset by assumption; exact Hz].
  destruct (Js.str_truthy (qte l)) eqn:Eq; cbn [andb];
    [|symmetry; apply add_zero_r; [assumption|];
      apply mul_zero; try assumption; right;
      rewrite spec_qty_unset by assumption; exact Hz].
  cbn [negb orb] in Hq. rewrite (spec_qty_set _ Eq Hq).
  unfold spec_price, Obj.get in *.
  destruct (Obj.own TARIFS (ref l)) as [t|]; cbn [Obj.truthy tarif_of];
    [reflexivity|].
  destruct (Obj.inherited (ref l)); [discriminate Hr|].
  cbn [Obj.truthy]. symmetry. apply add_zero_r; [assumption|].
  apply mul_zero; [reflexivity|assumption|left; exact Hz].
Qed.

Lemma total_fold_spec ls : forall sum,
  forallb line_ok ls = true -> not_negzero sum ->
  fold_left total_step ls sum
  = fold_left (fun s l => (s + spec_price (ref l) * spec_qty (qte l))%float) ls sum.
Proof.
  induction ls as [|l ls IH]; intros sum Hok Hs; [reflexivity|].
  cbn [forallb] in Hok. apply andb_prop in Hok. destruct Hok as [Hl Hok].
  cbn [fold_left]. rewrite total_step_spec by assumption.
  apply IH; [assumption|]. now apply add_not_negzero.
Qed.

(** C1, as the script has it.  On every list of lines whose quantities are
    empty or parse to a finite number and whose codes are not names of
    inherited members, [calcTotal] is the sum, from the first line to the
    last, of price times quantity, with price 0 for a code that is unset
    or not in the list and quantity 0 when unset; a single line with
    empty code and empty quantity totals 0. *)
Theorem calcTotal_spec (ls : list Ligne) :
  forallb line_ok ls = true ->
  calcTotal ls = spec_total ls
  /\ (forall i, calcTotal [mkLigne i "" ""] = 0%float).
Proof.
  intros Hok. split.
  - apply total_fold_spec; [assumption|]. vm_compute. discriminate.
  - intros i. unfold calcTotal. cbn [fold_left]. unfold total_step.
    cbn [ref Js.str_truthy andb]. reflexivity.
Qed.

Lemma calcTotal_spec_witness :
  calcTotal [mkLigne 1 "BUL-001" "3"; mkLigne 2 "" "2"; mkLigne 3 "XYZ" "1.5";
             mkLigne 4 "AUD-001" ""]
  = spec_total [mkLigne 1 "BUL-001" "3"; mkLigne 2 "" "2"; mkLigne 3 "XYZ" "1.5";
                mkLigne 4 "AUD-001" ""].
Proof.
  apply (calcTotal_spec [mkLigne 1 "BUL-001" "3"; mkLigne 2 "" "2";
                         mkLigne 3 "XYZ" "1.5"; mkLigne 4 "AUD-001" ""]).
  vm_compute. reflexivity.
Defined.

(** C1 fails as stated: a quantity that is not empty and does not parse
    makes the total [NaN], where the stated sum counts it as 0. *)
Lemma calcTotal_unparseable :
  calcTotal [mkLigne 1 "BUL-001" "abc"] = nan
  /\ spec_total [mkLigne 1 "BUL-001" "abc"] = 0%float
  /\ calcTotal [mkLigne 1 "BUL-001" "abc"] <> spec_total [mkLigne 1 "BUL-001" "abc"].
Proof.
  assert (H1 : calcTotal [mkLigne 1 "BUL-001" "abc"] = nan) by (vm_compute; reflexivity).
  assert (H2 : spec_total [mkLigne 1 "BUL-001" "abc"] = 0%float) by (vm_compute; reflexivity).
  repeat split; try assumption. rewrite H1, H2. intros H.
  apply (f_equal Prim2SF) in H. vm_compute in H. discriminate.
Qed.

(** The same happens for a code that names an inherited member:
    [TARIFS['constructor']] is truthy and has no [tarif]. *)
Lemma calcTotal_inherited_code :
  calcTotal [mkLigne 1 "constructor" "1"] = nan
  /\ spec_total [mkLigne 1 "constructor" "1"] = 0%float.
Proof. split; vm_compute; reflexivity. Qed.

(** An infinite quantity on a line without a known code is skipped by the
    script, where the product of the stated sum, [0 * Infinity], is [NaN]. *)
Lemma calcTotal_infinite_quantity :
  calcTotal [mkLigne 1 "" "Infinity"] = 0%float
  /\ spec_total [mkLigne 1 "" "Infinity"] = nan.
Proof. split; vm_compute; reflexivity. Qed.

(** The example of the specification: three payslips at 20 read 60.00. *)
Lemma calcTotal_example :
  calcTotal [mkLigne 1 "BUL-001" "3"] = 60%float
  /\ total_text [mkLigne 1 "BUL-001" "3"] = Some "60.00 €".
Proof. split; vm_compute; reflexivity. Qed.

End Total.

(* ================================================================== *)
(** * The total and the order of the lines                             *)
(* ================================================================== *)

Section Order.

Lemma sum_Z_perm l l' : Permutation l l' -> sum_Z l = sum_Z l'.
Proof. induction 1; simpl; lia. Qed.

Lemma sum_abs_perm l l' : Permutation l l' -> sum_abs l = sum_abs l'.
Proof. induction 1; simpl; lia. Qed.

Lemma sum_abs_nonneg l : 0 <= sum_abs l.
Proof. induction l; simpl; lia. Qed.

Lemma forallb_perm {A} (p : A -> bool) l l' :
  Permutation l l' -> forallb p l = true -> forallb p l' = true.
Proof.
  intros HP H. rewrite forallb_forall in *. intros x Hx.
  apply H. eapply Permutation_in; [symmetry; exact HP|exact Hx].
Qed.

Lemma erange_0 : erange 0.
Proof. unfold erange; lia. Qed.

(** The step of [calcTotal] on a line whose amount is exact: the running
    total moves by the integer amount of the line. *)
Lemma total_step_exact E a l :
  erange E -> line_exact E l = true ->
  Z.abs a + Z.abs (units E l) < 2 ^ 53 ->
  total_step (Js.of_dyadic a E) l = Js.of_dyadic (a + units E l) E.
Proof.
  intros HE Hl Hb. unfold line_exact in Hl. unfold units in *. unfold total_step.
  fold (counted l). destruct (counted l) eqn:Ec; cbn [negb orb] in Hl;
    [|now rewrite Z.add_0_r].
  apply andb_prop in Hl. destruct Hl as [Hown Hq].
  unfold counted in Ec. apply andb_prop in Ec. destruct Ec as [Ec _].
  apply andb_prop in Ec. destruct Ec as [_ Eq]. rewrite Eq.
  destruct (Obj.get TARIFS (ref l)) as [|t|] eqn:Eg; try discriminate.
  cbn [tarif_of] in *. apply get_own, TARIFS_entiers in Eg. destruct Eg as [Ht _].
  unfold tarif_entier in Ht. apply andb_prop in Ht. destruct Ht as [Ht Hpos].
  apply Z.ltb_lt in Hpos.
  apply exact_at_spec in Ht. destruct Ht as [Ht Hts].
  apply exact_at_spec in Hq. destruct Hq as [Hq Hqs].
  set (tz := to_units 0 (tarif t)) in *.
  set (k := to_units E (Js.parseFloat (qte l))) in *.
  rewrite Ht, Hq. unfold small in *.
  rewrite mul_exact; unfold small; try assumption; try apply erange_0; try lia.
  simpl (0 + E). apply add_exact; unfold small; try assumption; lia.
Qed.

Lemma total_fold_exact E ls : forall a,
  erange E -> forallb (line_exact E) ls = true ->
  Z.abs a + sum_abs (map (units E) ls) < 2 ^ 53 ->
  fold_left total_step ls (Js.of_dyadic a E)
  = Js.of_dyadic (a + sum_Z (map (units E) ls)) E.
Proof.
  induction ls as [|l ls IH]; intros a HE Hall Hb.
  - simpl. now rewrite Z.add_0_r.
  - cbn [forallb] in Hall. apply andb_prop in Hall. destruct Hall as [Hl Hall].
    change (sum_abs (map (units E) (l :: ls)))
      with (Z.abs (units E l) + sum_abs (map (units E) ls)) in Hb.
    change (sum_Z (map (units E) (l :: ls)))
      with (units E l + sum_Z (map (units E) ls)).
    cbn [fold_left].
    pose proof (sum_abs_nonneg (map (units E) ls)).
    rewrite total_step_exact by (try assumption; lia).
    rewrite IH by (try assumption; lia).
    f_equal. lia.
Qed.

(** C7, as the script has it.  When every counted line has a code of the
    price list and a quantity that is a multiple of [2^E], and the
    absolute amounts add up to less than [2^53] such units, the total is
    the exact sum of the amounts, and so the same for every order of the
    lines. *)
Theorem calcTotal_permutation_exact (E : Z) (ls ls' : list Ligne) :
  -1022 <= E <= 0 ->
  forallb (line_exact E) ls = true ->
  sum_abs (map (units E) ls) < 2 ^ 53 ->
  Permutation ls ls' ->
  calcTotal ls' = calcTotal ls
  /\ calcTotal ls = Js.of_dyadic (sum_Z (map (units E) ls)) E.
Proof.
  intros HE Hall Hb HP.
  assert (H0 : 0%float = Js.of_dyadic 0 E) by reflexivity.
  assert (HT : forall l, forallb (line_exact E) l = true ->
                         sum_abs (map (units E) l) < 2 ^ 53 ->
                         calcTotal l = Js.of_dyadic (sum_Z (map (units E) l)) E).
  { intros l Hl Hs. unfold calcTotal. rewrite H0.
    rewrite total_fold_exact by (try assumption; simpl; lia).
    reflexivity. }
  split; [|now apply HT].
  rewrite (HT ls), (HT ls'); try assumption.
  - f_equal. symmetry. apply sum_Z_perm, Permutation_map, HP.
  - eapply forallb_perm; eassumption.
  - rewrite <- (sum_abs_perm _ _ (Permutation_map (units E) HP)). assumption.
Qed.

Lemma calcTotal_permutation_exact_witness :
  calcTotal [mkLigne 3 "ENV-001" ""; mkLigne 1 "BUL-001" "3";
             mkLigne 2 "AUD-001" "2.5"]
  = calcTotal [mkLigne 1 "BUL-001" "3"; mkLigne 2 "AUD-001" "2.5";
               mkLigne 3 "ENV-001" ""].
Proof.
  apply (calcTotal_permutation_exact (-1)
           [mkLigne 1 "BUL-001" "3"; mkLigne 2 "AUD-001" "2.5";
            mkLigne 3 "ENV-001" ""]
           [mkLigne 3 "ENV-001" ""; mkLigne 1 "BUL-001" "3";
            mkLigne 2 "AUD-001" "2.5"]).
  - lia.
  - vm_compute. reflexivity.
  - vm_compute. reflexivity.
  - apply Permutation_sym, (Permutation_cons_app [_; _] []). reflexivity.
Defined.

(** C7 fails as stated: the sum is rounded at every step, so the order of
    the lines can change the total and the text written to the page.
    Three lines of ordinary size whose total reads 1018.23 in one order
    and 1018.22 in the reverse order; and three lines where the
    difference is a whole unit. *)
Lemma calcTotal_order_matters :
  (Permutation
     [mkLigne 1 "DUE-004" "1.467"; mkLigne 2 "AVE-001" "2.39";
      mkLigne 3 "LIC-003" "0.895"]
     [mkLigne 3 "LIC-003" "0.895"; mkLigne 2 "AVE-001" "2.39";
      mkLigne 1 "DUE-004" "1.467"]
   /\ calcTotal [mkLigne 1 "DUE-004" "1.467"; mkLigne 2 "AVE-001" "2.39";
                 mkLigne 3 "LIC-003" "0.895"]
      <> calcTotal [mkLigne 3 "LIC-003" "0.895"; mkLigne 2 "AVE-001" "2.39";
                    mkLigne 1 "DUE-004" "1.467"]
   /\ total_text [mkLigne 1 "DUE-004" "1.467"; mkLigne 2 "AVE-001" "2.39";
                  mkLigne 3 "LIC-003" "0.895"] = Some "1018.23 €"
   /\ total_text [mkLigne 3 "LIC-003" "0.895"; mkLigne 2 "AVE-001" "2.39";
                  mkLigne 1 "DUE-004" "1.467"] = Some "1018.22 €")
  /\ (Permutation
        [mkLigne 1 "ENV-001" "4503599627370496"; mkLigne 2 "ENV-001" "0.5";
         mkLigne 3 "ENV-001" "0.5"]
        [mkLigne 3 "ENV-001" "0.5"; mkLigne 2 "ENV-001" "0.5";
         mkLigne 1 "ENV-001" "4503599627370496"]
      /\ calcTotal [mkLigne 1 "ENV-001" "4503599627370496";
                    mkLigne 2 "ENV-001" "0.5"; mkLigne 3 "ENV-001" "0.5"]
         = 9007199254740992%float
      /\ calcTotal [mkLigne 3 "ENV-001" "0.5"; mkLigne 2 "ENV-001" "0.5";
                    mkLigne 1 "ENV-001" "4503599627370496"]
         = 9007199254740994%float).
Proof.
  split; [split; [|split; [|split]]|split; [|split]].
  - apply (Permutation_rev [_; _; _]).
  - intros H. apply (f_equal Prim2SF) in H. vm_compute in H. discriminate.
  - vm_compute. reflexivity.
  - vm_compute. reflexivity.
  - apply (Permutation_rev [_; _; _]).
  - vm_compute. reflexivity.
  - vm_compute. reflexivity.
Qed.

End Order.

(* ================================================================== *)
(** * Properties of the package estimator                              *)
(* ================================================================== *)

Section Forfait.

(** [parseInt(...) || 0] is never [NaN]. *)
Lemma or_zero_not_nan x : is_nan (Js.or_zero x) = false.
Proof.
  unfold Js.or_zero, Js.num_truthy.
  destruct (is_nan x) eqn:E; cbn [orb negb]; [reflexivity|].
  destruct (is_zero x); cbn [negb]; [reflexivity|assumption].
Qed.

Lemma headcount_not_nan form : is_nan (f_n (calcForfait form)) = false.
Proof. apply or_zero_not_nan. Qed.

(** The two tiers, on any number. *)
Lemma prixBul_of_tiers n :
  is_nan n = false ->
  ((n <=? 20)%float = true -> prixBul_of n = 20%float)
  /\ ((20 <? n)%float = true -> prixBul_of n = 15%float)
  /\ ((n <=? 20)%float = true \/ (20 <? n)%float = true).
Proof.
  intros Hn. unfold prixBul_of.
  rewrite (leb_negb_ltb n 20 Hn) by reflexivity.
  destruct (20 <? n)%float; cbn [negb]; repeat split; auto; discriminate.
Qed.

(** C2.  The price per payslip is 20 when the headcount is at most 20 and
    15 when it is above 20, one of the two being always the case; 20
    itself is priced 20 and 21 is priced 15. *)
Theorem prixBul_tiers (form : ForfaitForm) :
  ((f_n (calcForfait form) <=? 20)%float = true ->
   f_prixBul (calcForfait form) = 20%float)
  /\ ((20 <? f_n (calcForfait form))%float = true ->
      f_prixBul (calcForfait form) = 15%float)
  /\ ((f_n (calcForfait form) <=? 20)%float = true
      \/ (20 <? f_n (calcForfait form))%float = true)
  /\ f_prixBul (calcForfait (mkForfaitForm "20" "" "" false)) = 20%float
  /\ f_prixBul (calcForfait (mkForfaitForm "21" "" "" false)) = 15%float.
Proof.
  destruct (prixBul_of_tiers _ (headcount_not_nan form)) as (H1 & H2 & H3).
  repeat split; try assumption; vm_compute; reflexivity.
Qed.

Lemma prixBul_tiers_witness :
  f_prixBul (calcForfait (mkForfaitForm "7" "1" "0" true)) = 20%float
  /\ f_prixBul (calcForfait (mkForfaitForm "250" "" "" false)) = 15%float.
Proof.
  split.
  - apply (proj1 (prixBul_tiers (mkForfaitForm "7" "1" "0" true))).
    vm_compute. reflexivity.
  - apply (proj1 (proj2 (prixBul_tiers (mkForfaitForm "250" "" "" false)))).
    vm_compute. reflexivity.
Defined.

(** The price per payslip on an integer headcount. *)
Lemma prixBul_of_Z n :
  small n -> prixBul_of (Js.of_Z n) = Js.of_Z (if n <=? 20 then 20 else 15).
Proof.
  intros Hn. unfold prixBul_of.
  replace 20%float with (Js.of_dyadic 20 0) at 1 by (vm_compute; reflexivity).
  unfold Js.of_Z. fold (Js.of_dyadic n 0).
  rewrite leb_exact by (try assumption; try apply erange_0; unfold small; simpl; lia).
  destruct (n <=? 20); vm_compute; reflexivity.
Qed.

Lemma of_Z_mul a b :
  0 <= a -> 0 <= b -> a * b < 2 ^ 53 -> a < 2 ^ 53 -> b < 2 ^ 53 ->
  (Js.of_Z a * Js.of_Z b)%float = Js.of_Z (a * b).
Proof.
  intros. unfold Js.of_Z. fold (Js.of_dyadic a 0) (Js.of_dyadic b 0) (Js.of_dyadic (a * b) 0).
  rewrite mul_exact; unfold small; try apply erange_0; try lia; reflexivity.
Qed.

Lemma of_Z_add a b :
  0 <= a -> 0 <= b -> a + b < 2 ^ 53 ->
  (Js.of_Z a + Js.of_Z b)%float = Js.of_Z (a + b).
Proof.
  intros. unfold Js.of_Z. fold (Js.of_dyadic a 0) (Js.of_dyadic b 0) (Js.of_dyadic (a + b) 0).
  apply add_exact; unfold small; try apply erange_0; lia.
Qed.

(** Membership of a row in an explicit list of rows, both ways. *)
Ltac row_membership :=
  split;
  [ let H := fresh "H" in
    intros H;
    repeat (destruct H as [H|H]; [try discriminate H|]);
    try contradiction;
    try (injection H as <- <-; auto)
  | let H := fresh "H" in
    intros (H & -> & ->); try discriminate H; auto 6 ].

(** C3.  The monthly total is the sum of the four components, each the
    product the script computes, whether or not its row is written; the
    annual total is twelve times the monthly one.  A row is written for
    the payslips always, for the safe when it is ticked, for hires and
    exits when their count is above 0.  On integer counts within the
    exact range the total is the integer the formula gives, and headcount
    25 with 2 hires, 1 exit and the safe gives 375, 50, 30, 50, 505 a
    month and 6060 a year. *)
Theorem calcForfait_total (form : ForfaitForm) :
  f_total (calcForfait form)
  = (f_n (calcForfait form) * prixBul_of (f_n (calcForfait form))
     + (if forf_coffre form then f_n (calcForfait form) * 2 else 0)
     + f_entrees (calcForfait form) * 15
     + f_sorties (calcForfait form) * 50)%float
  /\ f_total (calcForfait form)
     = (f_mBul (calcForfait form) + f_mCoffre (calcForfait form)
        + f_mIn (calcForfait form) + f_mOut (calcForfait form))%float
  /\ f_annuel (calcForfait form) = (f_total (calcForfait form) * 12)%float
  /\ (forall k a, In (REntrees k a) (f_details (calcForfait form)) <->
                  (0 <? f_entrees (calcForfait form))%float = true
                  /\ k = f_entrees (calcForfait form)
                  /\ a = f_mIn (calcForfait form))
  /\ (forall k a, In (RSorties k a) (f_details (calcForfait form)) <->
                  (0 <? f_sorties (calcForfait form))%float = true
                  /\ k = f_sorties (calcForfait form)
                  /\ a = f_mOut (calcForfait form))
  /\ (forall n h s : Z,
        0 <= n -> 0 <= h -> 0 <= s ->
        12 * (20 * n + 2 * n + 15 * h + 50 * s) < 2 ^ 53 ->
        f_n (calcForfait form) = Js.of_Z n ->
        f_entrees (calcForfait form) = Js.of_Z h ->
        f_sorties (calcForfait form) = Js.of_Z s ->
        f_total (calcForfait form)
        = Js.of_Z (n * (if n <=? 20 then 20 else 15)
                   + (if forf_coffre form then n * 2 else 0)
                   + h * 15 + s * 50)
        /\ f_annuel (calcForfait form)
           = Js.of_Z ((n * (if n <=? 20 then 20 else 15)
                       + (if forf_coffre form then n * 2 else 0)
                       + h * 15 + s * 50) * 12))
  /\ calcForfait (mkForfaitForm "25" "2" "1" true)
     = mkForfait 25 2 1 15 375 50 30 50 505 6060
         [RBulletins 25 15 375; RCoffre 25 50; REntrees 2 30; RSorties 1 50].
Proof.
  split; [reflexivity|]. split; [reflexivity|]. split; [reflexivity|].
  split; [|split; [|split; [|vm_compute; reflexivity]]].
  - intros k a. unfold calcForfait; cbn [f_details f_entrees f_mIn].
    destruct (forf_coffre form);
    destruct (0 <? Js.or_zero (Js.parseInt (forf_in form)))%float;
    destruct (0 <? Js.or_zero (Js.parseInt (forf_out form)))%float;
    cbn [app In]; row_membership.
  - intros k a. unfold calcForfait; cbn [f_details f_sorties f_mOut].
    destruct (forf_coffre form);
    destruct (0 <? Js.or_zero (Js.parseInt (forf_in form)))%float;
    destruct (0 <? Js.or_zero (Js.parseInt (forf_out form)))%float;
    cbn [app In]; row_membership.
  - intros n h s Hn Hh Hs Hb En Eh Es.
    assert (Hc : forall z, 0 <= z -> z < 2 ^ 53 -> small z)
      by (intros; unfold small; lia).
    assert (HP : 15 <= (if n <=? 20 then 20 else 15) <= 20)
      by (destruct (n <=? 20); lia).
    set (P := if n <=? 20 then 20 else 15) in *.
    assert (E2 : 2%float = Js.of_Z 2) by (vm_compute; reflexivity).
    assert (E15 : 15%float = Js.of_Z 15) by (vm_compute; reflexivity).
    assert (E50 : 50%float = Js.of_Z 50) by (vm_compute; reflexivity).
    assert (E12 : 12%float = Js.of_Z 12) by (vm_compute; reflexivity).
    assert (E0 : 0%float = Js.of_Z 0) by (vm_compute; reflexivity).
    assert (EmB : f_mBul (calcForfait form) = Js.of_Z (n * P)).
    { change (f_mBul (calcForfait form))
        with (f_n (calcForfait form) * prixBul_of (f_n (calcForfait form)))%float.
      rewrite En, prixBul_of_Z by (apply Hc; lia). fold P.
      apply of_Z_mul; nia. }
    assert (EmC : f_mCoffre (calcForfait form)
                  = Js.of_Z (if forf_coffre form then n * 2 else 0)).
    { change (f_mCoffre (calcForfait form))
        with (if forf_coffre form then (f_n (calcForfait form) * 2)%float else 0%float).
      destruct (forf_coffre form); [|exact E0].
      rewrite En, E2. apply of_Z_mul; lia. }
    assert (EmI : f_mIn (calcForfait form) = Js.of_Z (h * 15)).
    { change (f_mIn (calcForfait form)) with (f_entrees (calcForfait form) * 15)%float.
      rewrite Eh, E15. apply of_Z_mul; lia. }
    assert (EmO : f_mOut (calcForfait form) = Js.of_Z (s * 50)).
    { change (f_mOut (calcForfait form)) with (f_sorties (calcForfait form) * 50)%float.
      rewrite Es, E50. apply of_Z_mul; lia. }
    assert (HC : 0 <= (if forf_coffre form then n * 2 else 0) <= n * 2)
      by (destruct (forf_coffre form); lia).
    set (C := if forf_coffre form then n * 2 else 0) in *.
    assert (ET : f_total (calcForfait form) = Js.of_Z (n * P + C + h * 15 + s * 50)).
    { change (f_total (calcForfait form))
        with (f_mBul (calcForfait form) + f_mCoffre (calcForfait form)
              + f_mIn (calcForfait form) + f_mOut (calcForfait form))%float.
      rewrite EmB, EmC, EmI, EmO. rewrite !of_Z_add; try reflexivity; nia. }
    split; [exact ET|].
    change (f_annuel (calcForfait form)) with (f_total (calcForfait form) * 12)%float.
    rewrite ET, E12. apply of_Z_mul; nia.
Qed.

Lemma calcForfait_total_witness :
  f_total (calcForfait (mkForfaitForm "40" "3" "2" false)) = Js.of_Z 745
  /\ f_annuel (calcForfait (mkForfaitForm "40" "3" "2" false)) = Js.of_Z 8940.
Proof.
  apply (proj1 (proj2 (proj2 (proj2 (proj2 (proj2
           (calcForfait_total (mkForfaitForm "40" "3" "2" false)))))))
           40 3 2).
  - lia.
  - lia.
  - lia.
  - vm_compute. reflexivity.
  - vm_compute. reflexivity.
  - vm_compute. reflexivity.
  - vm_compute. reflexivity.
Defined.

(** ** Negative counts *)

Lemma negative_spec n :
  (n <? 0)%float = true ->
  Prim2SF n = S754_infinity true \/ exists m e, Prim2SF n = S754_finite true m e.
Proof.
  rewrite ltb_spec. change (Prim2SF 0) with (S754_zero false). unfold SFltb.
  destruct (Prim2SF n) as [s|s| |s m e]; cbn [SFcompare]; try discriminate;
    destruct s; try discriminate; eauto.
Qed.

Lemma negative_intro x :
  Prim2SF x = S754_infinity true \/ (exists m e, Prim2SF x = S754_finite true m e) ->
  (x <? 0)%float = true.
Proof.
  rewrite ltb_spec. change (Prim2SF 0) with (S754_zero false). unfold SFltb.
  intros [->|(m & e & ->)]; reflexivity.
Qed.

Lemma Prim2SF_20 : Prim2SF 20 = S754_finite false 5629499534213120 (-48).
Proof. vm_compute. reflexivity. Qed.

Lemma negative_le_20 n : (n <? 0)%float = true -> (n <=? 20)%float = true.
Proof.
  intros H. apply negative_spec in H. rewrite leb_spec, Prim2SF_20. unfold SFleb.
  destruct H as [->|(m & e & ->)]; reflexivity.
Qed.

(** A negative number times 20 is negative: the product cannot round to
    a zero. *)
Lemma negative_times_20 n : (n <? 0)%float = true -> (n * 20 <? 0)%float = true.
Proof.
  intros H. apply negative_spec in H. apply negative_intro.
  rewrite mul_spec, Prim2SF_20. pose proof (Prim2SF_valid n) as Hv.
  destruct H as [->|(m & e & E)]; [left; reflexivity|].
  rewrite E in *. apply valid_exponent in Hv. unfold SF64mul. cbn [SFmul xorb].
  pose proof (dg_mul m 5629499534213120) as Hd. pose proof (dg_pos m).
  change (dg 5629499534213120) with 53 in Hd.
  destruct (round_aux_sign true (m * 5629499534213120) (e + -48)) as [H1|H1];
    [lia|right; exact H1|left; exact H1].
Qed.

(** C10.  A negative headcount is not rejected: it is priced at the first
    tier, 20 a payslip, its payslip amount is the negative product, and
    monthly and annual totals below zero do occur. *)
Theorem calcForfait_negative (form : ForfaitForm) :
  (f_n (calcForfait form) <? 0)%float = true ->
  f_prixBul (calcForfait form) = bulletinMoins20 FORFAIT_CONFIG
  /\ f_prixBul (calcForfait form) = 20%float
  /\ f_mBul (calcForfait form) = (f_n (calcForfait form) * 20)%float
  /\ (f_mBul (calcForfait form) <? 0)%float = true
  /\ (f_total (calcForfait (mkForfaitForm "-5" "" "" false)) = (-100)%float
      /\ f_annuel (calcForfait (mkForfaitForm "-5" "" "" false)) = (-1200)%float
      /\ (f_total (calcForfait (mkForfaitForm "-5" "" "" false)) <? 0)%float = true
      /\ (f_annuel (calcForfait (mkForfaitForm "-5" "" "" false)) <? 0)%float = true).
Proof.
  intros Hn.
  assert (Hp : f_prixBul (calcForfait form) = 20%float).
  { change (f_prixBul (calcForfait form)) with (prixBul_of (f_n (calcForfait form))).
    unfold prixBul_of. now rewrite (negative_le_20 _ Hn). }
  assert (Hm : f_mBul (calcForfait form) = (f_n (calcForfait form) * 20)%float).
  { change (f_mBul (calcForfait form))
      with (f_n (calcForfait form) * f_prixBul (calcForfait form))%float.
    now rewrite Hp. }
  split; [exact Hp|]. split; [exact Hp|]. split; [exact Hm|].
  split; [rewrite Hm; now apply negative_times_20|].
  repeat split; vm_compute; reflexivity.
Qed.

Lemma calcForfait_negative_witness :
  (f_n (calcForfait (mkForfaitForm "-3" "4" "" true)) <? 0)%float = true
  /\ f_prixBul (calcForfait (mkForfaitForm "-3" "4" "" true)) = 20%float
  /\ (f_mBul (calcForfait (mkForfaitForm "-3" "4" "" true)) <? 0)%float = true.
Proof.
  assert (H : (f_n (calcForfait (mkForfaitForm "-3" "4" "" true)) <? 0)%float = true)
    by (vm_compute; reflexivity).
  pose proof (calcForfait_negative (mkForfaitForm "-3" "4" "" true) H)
    as (_ & H1 & _ & H2 & _).
  exact (conj H (conj H1 H2)).
Defined.

End Forfait.

(* ================================================================== *)
(** * More on the quote builder's list                                 *)
(* ================================================================== *)

Section Builder.

Lemma state_eta st : mkState (lignes st) (ligneId st) = st.
Proof. now destruct st. Qed.

Lemma update_first_none i f v ls :
  find_ligne i ls = None -> update_first i f v ls = ls.
Proof.
  induction ls as [|l r IH]; simpl; [reflexivity|].
  destruct (id l =? i); [discriminate|].
  destruct (find_ligne i r); [discriminate|]. intros _. now rewrite IH.
Qed.

Lemma update_first_some i f v ls n :
  find_ligne i ls = Some n -> assign_at n f v ls = update_first i f v ls.
Proof.
  revert n. induction ls as [|l r IH]; intros n; simpl; [discriminate|].
  destruct (id l =? i).
  - intros H; injection H as <-. reflexivity.
  - destruct (find_ligne i r) as [m|]; [|discriminate].
    intros H; injection H as <-. simpl. now rewrite (IH m eq_refl).
Qed.

(** [updateLigne] is [update_first] on the list. *)
Lemma updateLigne_update_first i f v st :
  updateLigne i f v st = mkState (update_first i f v (lignes st)) (ligneId st).
Proof.
  unfold updateLigne. destruct (find_ligne i (lignes st)) as [n|] eqn:E.
  - now rewrite (update_first_some _ _ _ _ _ E).
  - rewrite update_first_none by assumption. symmetry. apply state_eta.
Qed.

Lemma update_first_length i f v ls :
  List.length (update_first i f v ls) = List.length ls.
Proof.
  induction ls as [|l r IH]; simpl; [reflexivity|].
  destruct (id l =? i); simpl; [reflexivity|now rewrite IH].
Qed.

Lemma set_field_twice f v1 v2 l :
  set_field f v2 (set_field f v1 l) = set_field f v2 l.
Proof. now destruct f. Qed.

Lemma set_field_swap a b l :
  set_field Fref a (set_field Fqte b l) = set_field Fqte b (set_field Fref a l).
Proof. reflexivity. Qed.

Lemma update_first_twice i f v1 v2 ls :
  update_first i f v2 (update_first i f v1 ls) = update_first i f v2 ls.
Proof.
  induction ls as [|l r IH]; simpl; [reflexivity|].
  destruct (id l =? i) eqn:E; simpl.
  - rewrite id_set_field, E. now rewrite set_field_twice.
  - now rewrite E, IH.
Qed.

Lemma update_first_fields i a b ls :
  update_first i Fref a (update_first i Fqte b ls)
  = update_first i Fqte b (update_first i Fref a ls).
Proof.
  induction ls as [|l r IH]; simpl; [reflexivity|].
  destruct (id l =? i) eqn:E; simpl; rewrite ?E; [reflexivity|now rewrite IH].
Qed.

Lemma update_first_comm i j f g a b ls :
  i <> j ->
  update_first i f a (update_first j g b ls)
  = update_first j g b (update_first i f a ls).
Proof.
  intros Hij. induction ls as [|l r IH]; simpl; [reflexivity|].
  destruct (id l =? j) eqn:Ej, (id l =? i) eqn:Ei; simpl;
    rewrite ?id_set_field, ?Ei, ?Ej; try reflexivity.
  - apply Z.eqb_eq in Ej, Ei. congruence.
  - now rewrite IH.
Qed.

(** X6.  Calls of [updateLigne] compose as assignments do: on the same
    line and property the last value wins, the two properties of a line
    are set independently, and calls on different ids commute.  This holds
    in every state. *)
Theorem updateLigne_compose (st : State) (i j : Z) (f g : Field)
  (a b : string) :
  updateLigne i f b (updateLigne i f a st) = updateLigne i f b st
  /\ updateLigne i Fref a (updateLigne i Fqte b st)
     = updateLigne i Fqte b (updateLigne i Fref a st)
  /\ (i <> j ->
      updateLigne i f a (updateLigne j g b st)
      = updateLigne j g b (updateLigne i f a st)).
Proof.
  rewrite !updateLigne_update_first. cbn [lignes ligneId].
  split; [|split].
  - now rewrite update_first_twice.
  - now rewrite update_first_fields.
  - intros Hij. now rewrite update_first_comm.
Qed.

Lemma updateLigne_compose_witness :
  updateLigne 1 Fqte "3" (updateLigne 2 Fref "AUD-001"
    (mkState [mkLigne 1 "BUL-001" ""; mkLigne 2 "" "1"] 2))
  = updateLigne 2 Fref "AUD-001" (updateLigne 1 Fqte "3"
    (mkState [mkLigne 1 "BUL-001" ""; mkLigne 2 "" "1"] 2)).
Proof.
  apply (proj2 (proj2 (updateLigne_compose
           (mkState [mkLigne 1 "BUL-001" ""; mkLigne 2 "" "1"] 2)
           1 2 Fqte Fref "3" "AUD-001"))).
  lia.
Defined.


Lemma filter_idem {A} (p : A -> bool) (l : list A) :
  filter p (filter p l) = filter p l.
Proof. apply filter_all. intros x Hx. now apply filter_In in Hx. Qed.

Lemma filter_update_first_same i f v ls :
  filter (fun l => negb (id l =? i)) (update_first i f v ls)
  = filter (fun l => negb (id l =? i)) ls.
Proof.
  induction ls as [|l r IH]; simpl; [reflexivity|].
  destruct (id l =? i) eqn:E; simpl.
  - now rewrite id_set_field, E.
  - now rewrite E, IH.
Qed.

Lemma filter_update_first_other i j f v ls :
  i <> j ->
  filter (fun l => negb (id l =? j)) (update_first i f v ls)
  = update_first i f v (filter (fun l => negb (id l =? j)) ls).
Proof.
  intros Hij. induction ls as [|l r IH]; simpl; [reflexivity|].
  destruct (id l =? i) eqn:Ei; simpl.
  - rewrite id_set_field. apply Z.eqb_eq in Ei.
    replace (id l =? j) with false by (symmetry; apply Z.eqb_neq; lia).
    simpl. apply Z.eqb_eq in Ei. now rewrite Ei.
  - destruct (id l =? j); simpl; [assumption|]. now rewrite Ei, IH.
Qed.

(** X7.  [removeLigne] composes simply, in every state: removing the same
    id twice is removing it once; removing one id commutes with setting a
    property of a line with another id; and with two lines or more,
    setting a property of a line and then removing it is removing it
    (with a single line the removal does nothing and the property stays
    set). *)
Theorem removeLigne_compose (st : State) (i j : Z) (f : Field)
  (value : string) :
  removeLigne i (removeLigne i st) = removeLigne i st
  /\ (i <> j ->
      removeLigne j (updateLigne i f value st)
      = updateLigne i f value (removeLigne j st))
  /\ ((1 < List.length (lignes st))%nat ->
      removeLigne i (updateLigne i f value st) = removeLigne i st)
  /\ ((List.length (lignes st) <= 1)%nat ->
      removeLigne i (updateLigne i f value st) = updateLigne i f value st).
Proof.
  split; [|split; [|split]].
  - destruct (1 <? Z.of_nat (List.length (lignes st))) eqn:E.
    + assert (H1 : removeLigne i st
                   = mkState (filter (fun l => negb (id l =? i)) (lignes st))
                             (ligneId st))
        by (unfold removeLigne; now rewrite E).
      rewrite H1. unfold removeLigne. cbn [lignes ligneId].
      rewrite filter_idem. now destruct (1 <? Z.of_nat (List.length (filter _ _))).
    + assert (H1 : removeLigne i st = st)
        by (unfold removeLigne; now rewrite E).
      now rewrite !H1.
  - intros Hij. rewrite updateLigne_update_first.
    unfold removeLigne. cbn [lignes ligneId]. rewrite update_first_length.
    destruct (1 <? _).
    + rewrite updateLigne_update_first. cbn [lignes ligneId].
      now rewrite filter_update_first_other.
    + now rewrite updateLigne_update_first.
  - intros Hlen. rewrite updateLigne_update_first.
    unfold removeLigne. cbn [lignes ligneId]. rewrite update_first_length.
    replace (1 <? _) with true by (symmetry; apply Z.ltb_lt; lia).
    now rewrite filter_update_first_same.
  - intros Hlen. rewrite updateLigne_update_first.
    unfold removeLigne. cbn [lignes ligneId]. rewrite update_first_length.
    replace (1 <? _) with false by (symmetry; apply Z.ltb_ge; lia).
    reflexivity.
Qed.

Lemma removeLigne_compose_witness :
  removeLigne 2 (updateLigne 2 Fqte "3"
    (mkState [mkLigne 1 "" ""; mkLigne 2 "BUL-001" ""] 2))
  = removeLigne 2 (mkState [mkLigne 1 "" ""; mkLigne 2 "BUL-001" ""] 2)
  /\ removeLigne 1 (updateLigne 1 Fqte "3" (mkState [mkLigne 1 "" ""] 1))
     = updateLigne 1 Fqte "3" (mkState [mkLigne 1 "" ""] 1).
Proof.
  split.
  - apply (proj1 (proj2 (proj2 (removeLigne_compose
             (mkState [mkLigne 1 "" ""; mkLigne 2 "BUL-001" ""] 2)
             2 2 Fqte "3")))).
    simpl. lia.
  - apply (proj2 (proj2 (proj2 (removeLigne_compose
             (mkState [mkLigne 1 "" ""] 1) 1 1 Fqte "3")))).
    simpl. lia.
Defined.

End Builder.

(* ================================================================== *)
(** * Ids in order, and what follows the loading of the page            *)
(* ================================================================== *)

Section Ids.







End Ids.

(* ================================================================== *)
(** * The total and the rows                                            *)
(* ================================================================== *)

Section TotalRows.

Lemma is_nan_eq x : is_nan x = true -> x = nan.
Proof.
  intros H. apply Prim2SF_inj. rewrite is_nan_spec in H.
  destruct (Prim2SF x); try discriminate. reflexivity.
Qed.

Lemma add_nan_l y : (nan + y)%float = nan.
Proof. apply Prim2SF_inj. rewrite add_spec. reflexivity. Qed.

Lemma add_nan_r x : (x + nan)%float = nan.
Proof.
  apply Prim2SF_inj. rewrite add_spec.
  change (Prim2SF nan) with S754_nan. now destruct (Prim2SF x).
Qed.

Lemma mul_nan_l y : (nan * y)%float = nan.
Proof. apply Prim2SF_inj. rewrite mul_spec. reflexivity. Qed.

Lemma mul_nan_r x : (x * nan)%float = nan.
Proof.
  apply Prim2SF_inj. rewrite mul_spec.
  change (Prim2SF nan) with S754_nan. now destruct (Prim2SF x).
Qed.

Lemma counted_row_tarif l :
  counted l = true -> row_tarif l = tarif_of (Obj.get TARIFS (ref l)).
Proof.
  unfold counted, row_tarif. intros H.
  apply andb_prop in H. destruct H as [H Ht].
  apply andb_prop in H. destruct H as [Hr _]. now rewrite Hr, Ht.
Qed.

Lemma total_step_counted s l :
  total_step s l = if counted l then (s + row_amount l)%float else s.
Proof.
  unfold total_step. fold (counted l). destruct (counted l) eqn:E; [|reflexivity].
  unfold row_amount. rewrite (counted_row_tarif l E).
  unfold counted in E. apply andb_prop in E. destruct E as [E _].
  apply andb_prop in E. destruct E as [_ Hq]. now rewrite Hq.
Qed.

Lemma total_fold_filter ls : forall s,
  fold_left total_step ls s
  = fold_left (fun s l => (s + row_amount l)%float) (filter counted ls) s.
Proof.
  induction ls as [|l r IH]; intros s; [reflexivity|].
  simpl fold_left at 1. rewrite total_step_counted. simpl filter.
  destruct (counted l); [simpl|]; apply IH.
Qed.

Lemma calcTotal_addLigne st :
  calcTotal (lignes (addLigne st)) = calcTotal (lignes st).
Proof.
  unfold calcTotal. rewrite !total_fold_filter. unfold addLigne. cbn [lignes].
  rewrite filter_app. simpl. now rewrite app_nil_r.
Qed.

Lemma total_fold_nan ls : fold_left total_step ls nan = nan.
Proof.
  induction ls as [|l r IH]; [reflexivity|]. simpl.
  rewrite total_step_counted. destruct (counted l); [|exact IH].
  now rewrite add_nan_l.
Qed.

Lemma append_dot_nonempty (u r : string) : (u ++ String "." r)%string <> "".
Proof. now destruct u. Qed.

Lemma toFixed2_not_dash x : Js.toFixed2 x <> Some "-".
Proof.
  unfold Js.toFixed2. destruct (Prim2SF x) as [s|s| |s m e];
    try (destruct s; discriminate); try discriminate.
  destruct (if 0 <=? e then _ else _); [discriminate|].
  unfold Js.hundredths. cbv zeta.
  set (n := if 0 <=? e then _ else _).
  set (u := Js.dec_string (n / 100)).
  set (r := String.append (if n mod 100 <? 10 then "0" else "") _).
  intros H. injection H as H.
  destruct s; simpl in H.
  - injection H as H. revert H. apply append_dot_nonempty.
  - destruct u as [|c u]; simpl in H; [discriminate|].
    injection H as _ H. revert H. apply append_dot_nonempty.
Qed.

(** X1.  The total is the sum, in the order of the list, of the amounts
    of the lines that have a code, a quantity and an entry under the code;
    the other lines add nothing.  So adding a line leaves the total as it
    is, and so does removing a line that is not counted. *)
Theorem calcTotal_counted_rows (ls : list Ligne) :
  calcTotal ls
  = fold_left (fun s l => (s + row_amount l)%float) (filter counted ls) 0%float
  /\ calcTotal ls = calcTotal (filter counted ls)
  /\ (forall st, lignes st = ls -> calcTotal (lignes (addLigne st)) = calcTotal ls)
  /\ (forall i, (forall l, In l ls -> id l = i -> counted l = false) ->
                calcTotal (filter (fun l => negb (id l =? i)) ls) = calcTotal ls).
Proof.
  assert (H1 : forall l, calcTotal l
               = fold_left (fun s l => (s + row_amount l)%float)
                           (filter counted l) 0%float)
    by (intros l; apply total_fold_filter).
  split; [apply H1|]. split; [|split].
  - rewrite (H1 (filter counted ls)), H1. now rewrite filter_idem.
  - intros st <-. apply calcTotal_addLigne.
  - intros i Hi. rewrite !H1. f_equal.
    induction ls as [|l r IH]; [reflexivity|]. simpl.
    assert (Hr : forall l0, In l0 r -> id l0 = i -> counted l0 = false)
      by (intros l0 Hl0; apply Hi; now right).
    destruct (id l =? i) eqn:E; simpl.
    + apply Z.eqb_eq in E. rewrite (Hi l (or_introl eq_refl) E). now apply IH.
    + destruct (counted l); [f_equal|]; now apply IH.
Qed.

Lemma calcTotal_counted_rows_witness :
  calcTotal (filter (fun l => negb (id l =? 2))
                    [mkLigne 1 "BUL-001" "3"; mkLigne 2 "DUE-004" ""])
  = calcTotal [mkLigne 1 "BUL-001" "3"; mkLigne 2 "DUE-004" ""].
Proof.
  apply (calcTotal_counted_rows
           [mkLigne 1 "BUL-001" "3"; mkLigne 2 "DUE-004" ""]).
  intros l [<-|[<-|[]]]; vm_compute; [discriminate|reflexivity].
Defined.

(** X2.  One counted line whose quantity does not parse, or whose code
    names an inherited member, makes the whole total [NaN], whatever the
    other lines hold: the page reads "NaN €". *)
Theorem calcTotal_nan (ls : list Ligne) (l : Ligne) :
  In l ls -> counted l = true ->
  Obj.get TARIFS (ref l) = Obj.Inherited
  \/ is_nan (Js.parseFloat (qte l)) = true ->
  calcTotal ls = nan /\ total_text ls = Some "NaN €".
Proof.
  intros Hin Hc Hbad.
  assert (Ha : row_amount l = nan).
  { unfold row_amount. rewrite (counted_row_tarif l Hc).
    destruct Hbad as [E|E].
    - rewrite E. apply mul_nan_l.
    - rewrite (is_nan_eq _ E). apply mul_nan_r. }
  assert (Ht : calcTotal ls = nan).
  { apply in_split in Hin. destruct Hin as (l1 & l2 & ->).
    unfold calcTotal. rewrite fold_left_app. simpl.
    rewrite total_step_counted, Hc, Ha, add_nan_r. apply total_fold_nan. }
  split; [exact Ht|]. unfold total_text. now rewrite Ht.
Qed.

Lemma calcTotal_nan_witness :
  calcTotal [mkLigne 1 "BUL-001" "3"; mkLigne 2 "AUD-001" "abc";
             mkLigne 3 "DUE-004" "2"] = nan
  /\ total_text [mkLigne 1 "BUL-001" "3"; mkLigne 2 "toString" "1"]
     = Some "NaN €".
Proof.
  split.
  - apply (calcTotal_nan _ (mkLigne 2 "AUD-001" "abc")).
    + right; left; reflexivity.
    + vm_compute; reflexivity.
    + right. vm_compute; reflexivity.
  - apply (calcTotal_nan _ (mkLigne 2 "toString" "1")).
    + right; left; reflexivity.
    + vm_compute; reflexivity.
    + left. vm_compute; reflexivity.
Defined.

(** X3.  What a row shows against what the total adds.  A row without a
    code or without a quantity shows "-" and is not counted.  Any other
    row shows an amount, never "-"; when the line is counted, it is the
    amount the total adds for it.  A row whose code has no entry, with a
    quantity that parses to a finite number, shows "0.00€" and is not
    counted either. *)
Theorem row_text_amount (l : Ligne) :
  (Js.str_truthy (ref l) && Js.str_truthy (qte l) = false ->
   row_text l = Some "-" /\ counted l = false)
  /\ (Js.str_truthy (ref l) && Js.str_truthy (qte l) = true ->
      row_text l = option_map (fun t => (t ++ "€")%string)
                              (Js.toFixed2 (row_amount l))
      /\ row_text l <> Some "-"
      /\ (counted l = true -> forall s, total_step s l = (s + row_amount l)%float)
      /\ (Obj.get TARIFS (ref l) = Obj.Undefined ->
          is_finite (Js.parseFloat (qte l)) = true ->
          row_text l = Some "0.00€" /\ counted l = false)).
Proof.
  split.
  - intros H. unfold row_text, counted. rewrite H. now split.
  - intros H.
    assert (E : row_text l = option_map (fun t => (t ++ "€")%string)
                                        (Js.toFixed2 (row_amount l))).
    { unfold row_text. rewrite H. pose proof (toFixed2_not_dash (row_amount l)) as Hd.
      destruct (Js.toFixed2 (row_amount l)) as [t|]; [|reflexivity]. simpl.
      destruct (String.eqb t "-") eqn:Et; [|reflexivity].
      apply String.eqb_eq in Et. now subst. }
    split; [exact E|]. split; [|split].
    + rewrite E. pose proof (toFixed2_not_dash (row_amount l)) as Hd.
      destruct (Js.toFixed2 (row_amount l)) as [t|]; [|discriminate].
      simpl. intros Ht. injection Ht as Ht.
      destruct t as [|c t]; [discriminate|]. simpl in Ht.
      injection Ht as Hc Ht. now destruct t.
    + intros Hc s. now rewrite total_step_counted, Hc.
    + intros Hu Hf. split.
      * rewrite E. unfold row_amount, row_tarif. rewrite Hu. cbn [Obj.truthy].
        rewrite andb_false_r.
        assert (Hz : SFzero (Prim2SF (0 * Js.parseFloat (qte l))%float) = true)
          by (apply mul_zero; [reflexivity|exact Hf|now left]).
        unfold Js.toFixed2.
        now destruct (Prim2SF (0 * Js.parseFloat (qte l))%float).
      * unfold counted. rewrite Hu. cbn [Obj.truthy]. apply andb_false_r.
Qed.

Lemma row_text_amount_witness :
  (row_text (mkLigne 1 "BUL-001" "") = Some "-"
   /\ counted (mkLigne 1 "BUL-001" "") = false)
  /\ row_text (mkLigne 1 "BUL-001" "3") <> Some "-"
  /\ total_step 5 (mkLigne 1 "BUL-001" "3")
     = (5 + row_amount (mkLigne 1 "BUL-001" "3"))%float
  /\ (row_text (mkLigne 1 "XYZ" "4") = Some "0.00€"
      /\ counted (mkLigne 1 "XYZ" "4") = false).
Proof.
  split; [|split; [|split]].
  - apply (proj1 (row_text_amount (mkLigne 1 "BUL-001" ""))). reflexivity.
  - apply (proj2 (row_text_amount (mkLigne 1 "BUL-001" "3"))). reflexivity.
  - apply (proj2 (row_text_amount (mkLigne 1 "BUL-001" "3")));
      vm_compute; reflexivity.
  - apply (proj2 (row_text_amount (mkLigne 1 "XYZ" "4")));
      vm_compute; reflexivity.
Defined.

End TotalRows.

(* ================================================================== *)
(** * The page: what is shown against what is held                      *)
(* ================================================================== *)

Section PageInvariants.

Lemma step_page_state p o : p_state (step_page p o) = step (p_state p) o.
Proof.
  destruct o as [|i|i f v]; simpl.
  - reflexivity.
  - unfold removeLigne_page, removeLigne.
    now destruct (1 <? Z.of_nat (List.length (lignes (p_state p)))).
  - unfold updateLigne_page, updateLigne.
    now destruct (find_ligne i (lignes (p_state p))).
Qed.

Lemma run_page_state ops : forall p,
  p_state (run_page ops p) = run ops (p_state p).
Proof.
  induction ops as [|o ops IH]; intros p; [reflexivity|].
  change (run_page (o :: ops) p) with (run_page ops (step_page p o)).
  change (run (o :: ops) (p_state p)) with (run ops (step (p_state p) o)).
  now rewrite IH, step_page_state.
Qed.

Lemma rows_in_step_render st t :
  rows_in_step (mkPage st (renderLignes (lignes st)) t).
Proof.
  unfold rows_in_step, renderLignes, ids. cbn [p_rows p_state]. split.
  - rewrite map_map. reflexivity.
  - rewrite Forall_map. apply Forall_forall. reflexivity.
Qed.

Lemma rows_in_step_step p o : rows_in_step p -> rows_in_step (step_page p o).
Proof.
  intros H. destruct o as [|i|i f v]; simpl.
  - apply rows_in_step_render.
  - unfold removeLigne_page.
    destruct (1 <? Z.of_nat (List.length (lignes (p_state p))));
      [apply rows_in_step_render|exact H].
  - unfold updateLigne_page.
    destruct (find_ligne i (lignes (p_state p))) eqn:E; [|exact H].
    destruct H as [H1 H2]. unfold rows_in_step. cbn [p_rows p_state].
    rewrite updateLigne_ids. split; [exact H1|].
    assert (El : List.length (lignes (updateLigne i f v (p_state p)))
                 = List.length (lignes (p_state p))).
    { rewrite <- (length_map id), <- (length_map id (lignes (p_state p))).
      fold (ids (updateLigne i f v (p_state p))). now rewrite updateLigne_ids. }
    now rewrite El.
Qed.

Lemma total_fresh_step p o : total_fresh p -> total_fresh (step_page p o).
Proof.
  unfold total_fresh. intros H. destruct o as [|i|i f v]; cbn [step_page].
  - unfold addLigne_page. cbv zeta. cbn [p_total p_state]. rewrite H.
    unfold total_text. now rewrite calcTotal_addLigne.
  - unfold removeLigne_page.
    now destruct (1 <? Z.of_nat (List.length (lignes (p_state p)))).
  - unfold updateLigne_page. now destruct (find_ligne i (lignes (p_state p))).
Qed.

Lemma run_page_inv (P : Page -> Prop) :
  (forall p o, P p -> P (step_page p o)) ->
  forall ops p, P p -> P (run_page ops p).
Proof.
  intros Hs. induction ops as [|o ops IH]; intros p Hp; [exact Hp|].
  apply (IH (step_page p o)), Hs, Hp.
Qed.

Lemma load_state m : p_state (load m) = addLigne init.
Proof. reflexivity. Qed.

Lemma updates_keep_rows ops : forall p,
  forallb is_update ops = true -> p_rows (run_page ops p) = p_rows p.
Proof.
  induction ops as [|o ops IH]; intros p H; [reflexivity|].
  simpl in H. apply andb_prop in H. destruct H as [Ho H].
  change (run_page (o :: ops) p) with (run_page ops (step_page p o)).
  rewrite (IH _ H). destruct o as [|i|i f v]; try discriminate. simpl.
  unfold updateLigne_page. now destruct (find_ligne i (lignes (p_state p))).
Qed.

(** X12.  The rows and the total shown keep up with the list in what
    follows.  After the page has loaded, whatever calls are made, there is
    one row per line, with the ids of the list in its order, and every row
    has the remove button exactly when the list holds two lines or more.
    The total shown is the total of the list whenever it was so before the
    calls; [addLigne], which writes no total, does not break this.  After
    loading it is so exactly when the markup shows "0.00 €". *)
Theorem page_in_step (ops : list Op) (m : option string) :
  p_state (run_page ops (load m)) = run ops (addLigne init)
  /\ rows_in_step (run_page ops (load m))
  /\ (forall p, total_fresh p -> total_fresh (run_page ops p))
  /\ (total_fresh (load m) <-> m = Some "0.00 €").
Proof.
  split; [now rewrite run_page_state|]. split; [|split].
  - apply (run_page_inv rows_in_step rows_in_step_step).
    apply rows_in_step_render.
  - apply (run_page_inv total_fresh total_fresh_step).
  - unfold total_fresh. reflexivity.
Qed.

Lemma page_in_step_witness :
  total_fresh (run_page [OpUpdate 1 Fref "BUL-001"; OpAdd; OpUpdate 1 Fqte "3"]
                        (load (Some "0.00 €"))).
Proof.
  apply (page_in_step [OpUpdate 1 Fref "BUL-001"; OpAdd; OpUpdate 1 Fqte "3"] None).
  apply (page_in_step [] (Some "0.00 €")). reflexivity.
Defined.

Lemma update_page_fresh i f v p :
  In i (ids (p_state p)) -> total_fresh (updateLigne_page i f v p).
Proof.
  intros Hi. unfold updateLigne_page, total_fresh.
  destruct (find_ligne i (lignes (p_state p))) eqn:E; [reflexivity|].
  exfalso. unfold ids in Hi. apply in_map_iff in Hi.
  destruct Hi as (l & Hl & Hin).
  now apply (proj1 (find_ligne_none i (lignes (p_state p))) E l Hin).
Qed.

(** X13.  [updateLigne] writes the total and not the rows: through any
    run of updates the rows stay as they were last written, so the amount
    a row shows is the one of the last [addLigne] or [removeLigne]; the
    total is the total of the list as soon as one of the updates names a
    line of the list.  After loading, choosing a code and typing a
    quantity leaves the row at "-" beside a total of "60.00 €". *)
Theorem rows_stale_after_updates (ops : list Op) (p : Page) :
  forallb is_update ops = true ->
  p_rows (run_page ops p) = p_rows p
  /\ ((exists i f v, In (OpUpdate i f v) ops /\ In i (ids (p_state p))) ->
      total_fresh (run_page ops p)).
Proof.
  intros H. split; [now apply updates_keep_rows|].
  revert p H. induction ops as [|o ops IH]; intros p H (i & f & v & Hin & Hi);
    [destruct Hin|].
  simpl in H. apply andb_prop in H. destruct H as [Ho H].
  change (run_page (o :: ops) p) with (run_page ops (step_page p o)).
  destruct Hin as [->|Hin].
  - apply (run_page_inv total_fresh total_fresh_step).
    now apply update_page_fresh.
  - apply (IH _ H). exists i, f, v. split; [exact Hin|].
    rewrite step_page_state. destruct o as [|j|j g w]; try discriminate.
    simpl. now rewrite updateLigne_ids.
Qed.

Lemma rows_stale_after_updates_witness :
  map row_total
      (p_rows (run_page [OpUpdate 1 Fref "BUL-001"; OpUpdate 1 Fqte "3"]
                        (load None)))
  = [Some "-"]
  /\ p_total (run_page [OpUpdate 1 Fref "BUL-001"; OpUpdate 1 Fqte "3"]
                       (load None))
     = Some "60.00 €".
Proof.
  destruct (rows_stale_after_updates
              [OpUpdate 1 Fref "BUL-001"; OpUpdate 1 Fqte "3"] (load None)
              eq_refl) as [Hr Ht].
  split.
  - rewrite Hr. vm_compute. reflexivity.
  - rewrite Ht; [vm_compute; reflexivity|].
    exists 1, Fref, "BUL-001". split; [now left|now left].
Defined.

End PageInvariants.

(* ================================================================== *)
(** * The controls of a row                                             *)
(* ================================================================== *)

Section Rows.






Lemma TARIFS_keys_NoDup : NoDup (map fst TARIFS).
Proof.
  replace (map fst TARIFS) with (first_seen (map fst TARIFS))
    by (vm_compute; reflexivity).
  apply first_seen_NoDup.
Qed.

Lemma own_of_In {V} (o : Obj.t V) k v :
  NoDup (map fst o) -> In (k, v) o -> Obj.own o k = Some v.
Proof.
  induction o as [|[k' v'] o IH]; [intros _ []|]. simpl.
  intros Hnd Hin. inversion Hnd as [|? ? Hk Hn]; subst.
  destruct Hin as [E|Hin].
  - injection E as -> ->. now rewrite String.eqb_refl.
  - destruct (String.eqb k' k) eqn:E; [|now apply IH].
    apply String.eqb_eq in E. subst. exfalso. apply Hk.
    change k with (fst (k, v)). now apply in_map.
Qed.

(** An option of a row is an entry of the price list. *)
Lemma option_entry l o :
  In o (row_options_of l) ->
  exists t, Obj.own TARIFS (opt_value o) = Some t
            /\ opt_selected o = String.eqb (ref l) (opt_value o)
            /\ opt_libelle o = libelle t /\ opt_tarif o = tarif t.
Proof.
  unfold row_options_of, Obj.entries. intros Ho. apply in_map_iff in Ho.
  destruct Ho as ([k t] & <- & Hin). exists t.
  cbn [opt_selected opt_value opt_libelle opt_tarif fst snd].
  split; [|repeat split]. apply own_of_In; [apply TARIFS_keys_NoDup|exact Hin].
Qed.

(** X10.  The options of a row's select, after the placeholder.  There is
    one per entry of the price list, in the order the list is written,
    each with the label and the price of its entry.  An option is selected
    exactly when its value is the code of the line, so at most one is; none
    is, and the select shows the placeholder, exactly when the code of the
    line is not a code of the price list. *)
Theorem row_options_selected (l : Ligne) :
  map opt_value (row_options_of l) = map fst TARIFS_source
  /\ (forall o, In o (row_options_of l) ->
        (opt_selected o = true <-> opt_value o = ref l)
        /\ exists t, Obj.own TARIFS (opt_value o) = Some t
                     /\ opt_libelle o = libelle t /\ opt_tarif o = tarif t)
  /\ (List.length (filter opt_selected (row_options_of l)) <= 1)%nat
  /\ (filter opt_selected (row_options_of l) = []
      <-> Obj.own TARIFS (ref l) = None).
Proof.
  split; [unfold row_options_of; rewrite map_map; vm_compute; reflexivity|].
  split.
  { intros o Ho. destruct (option_entry l o Ho) as (t & Ht & Hs & Hl & Hp).
    split; [|now exists t]. rewrite Hs, String.eqb_eq. split; congruence. }
  pose proof TARIFS_keys_NoDup as Hnd.
  unfold row_options_of, Obj.entries.
  generalize dependent TARIFS. intros T Hnd.
  split.
  - induction T as [|[k t] T IH]; simpl; [lia|].
    inversion Hnd as [|? ? Hk Hn]; subst.
    destruct (String.eqb (ref l) k) eqn:E; simpl; [|now apply IH].
    apply String.eqb_eq in E. subst k.
    replace (filter opt_selected _) with (@nil SelectOption); [simpl; lia|].
    symmetry. clear IH Hn Hnd. induction T as [|[k' t'] T IH]; [reflexivity|].
    simpl in *. destruct (String.eqb (ref l) k') eqn:E'.
    + apply String.eqb_eq in E'. exfalso. apply Hk. now left.
    + apply IH. intros H. apply Hk. now right.
  - clear Hnd. induction T as [|[k t] T IH]; simpl; [tauto|].
    rewrite (String.eqb_sym k). destruct (String.eqb (ref l) k); simpl.
    + split; discriminate.
    + exact IH.
Qed.

Lemma row_options_selected_witness :
  opt_selected (mkOption "AUD-001" true "Audit réglementaire de paie" 120) = true
  <-> "AUD-001" = ref (mkLigne 1 "AUD-001" "2").
Proof.
  apply (row_options_selected (mkLigne 1 "AUD-001" "2")).
  left. reflexivity.
Defined.

(** X11.  Every option the select offers is priced: once an option is
    chosen on a line and a quantity typed, the line is counted in the
    total, at the price the option shows, which is a finite number; with
    the quantity empty the line is not counted. *)
Theorem options_are_priced (l : Ligne) (o : SelectOption) (i : Z) (q : string) :
  In o (row_options_of l) ->
  counted (mkLigne i (opt_value o) q) = Js.str_truthy q
  /\ row_tarif (mkLigne i (opt_value o) q) = opt_tarif o
  /\ is_finite (opt_tarif o) = true
  /\ (Js.str_truthy q = true ->
      forall s, total_step s (mkLigne i (opt_value o) q)
                = (s + opt_tarif o * Js.parseFloat q)%float).
Proof.
  intros Ho. destruct (option_entry l o Ho) as (t & Ht & _ & _ & Hp).
  assert (Hk : Js.str_truthy (opt_value o) = true).
  { assert (Hall : forallb (fun e => Js.str_truthy (fst e)) TARIFS = true)
      by (vm_compute; reflexivity).
    rewrite forallb_forall in Hall. apply (Hall (opt_value o, t)).
    now apply own_In. }
  assert (Hg : Obj.get TARIFS (opt_value o) = Obj.Own t) by now apply get_own.
  assert (Hc : counted (mkLigne i (opt_value o) q) = Js.str_truthy q).
  { unfold counted. cbn [ref qte]. rewrite Hk, Hg. cbn [Obj.truthy andb].
    apply andb_true_r. }
  assert (Hr : row_tarif (mkLigne i (opt_value o) q) = opt_tarif o).
  { unfold row_tarif. cbn [ref]. rewrite Hk, Hg. cbn [Obj.truthy andb tarif_of].
    now symmetry. }
  split; [exact Hc|]. split; [exact Hr|]. split.
  - rewrite Hp. now apply (TARIFS_entiers (opt_value o) t).
  - intros Hq s. rewrite total_step_counted, Hc, Hq. unfold row_amount.
    now rewrite Hr.
Qed.

Lemma options_are_priced_witness :
  counted (mkLigne 7 "AUD-001" "2.5") = true
  /\ row_tarif (mkLigne 7 "AUD-001" "2.5") = 120%float.
Proof.
  assert (Ho : In (mkOption "AUD-001" false "Audit réglementaire de paie" 120)
                  (row_options_of (mkLigne 1 "" "")))
    by (left; reflexivity).
  destruct (options_are_priced (mkLigne 1 "" "") _ 7 "2.5" Ho) as (H1 & H2 & _).
  exact (conj H1 H2).
Defined.

End Rows.

(* ================================================================== *)
(** * The breakdown of the package estimator against its total          *)
(* ================================================================== *)

Section Breakdown.

Lemma or_zero_not_negzero x : not_negzero (Js.or_zero x).
Proof.
  unfold not_negzero, Js.or_zero, Js.num_truthy.
  destruct (is_nan x); cbn [orb negb]; [discriminate|].
  destruct (is_zero x) eqn:E; cbn [negb]; [discriminate|].
  rewrite is_zero_spec in E. intros H. now rewrite H in E.
Qed.

(** A finite number times a positive constant that is at least 1 keeps
    its sign: the product does not round to a zero. *)
Lemma mul_ge1_sign x c s m e mc ec :
  Prim2SF x = S754_finite s m e -> Prim2SF c = S754_finite false mc ec ->
  1 <= dg mc + ec ->
  (exists q e', Prim2SF (x * c)%float = S754_finite s q e')
  \/ Prim2SF (x * c)%float = S754_infinity s.
Proof.
  intros Hx Hc Hge. pose proof (Prim2SF_valid x) as Hv.
  rewrite mul_spec, Hx, Hc. rewrite Hx in Hv. apply valid_exponent in Hv.
  unfold SF64mul. cbn [SFmul]. rewrite xorb_false_r.
  pose proof (dg_mul m mc) as Hd. pose proof (dg_pos m).
  apply round_aux_sign. lia.
Qed.

Lemma mul_ge1_not_negzero x c mc ec :
  not_negzero x -> Prim2SF c = S754_finite false mc ec -> 1 <= dg mc + ec ->
  not_negzero (x * c)%float.
Proof.
  unfold not_negzero. intros Hx Hc Hge.
  destruct (Prim2SF x) as [s|s| |s m e] eqn:E.
  - rewrite mul_spec, E, Hc. destruct s; [congruence|discriminate].
  - rewrite mul_spec, E, Hc. discriminate.
  - rewrite mul_spec, E, Hc. discriminate.
  - destruct (mul_ge1_sign x c s m e mc ec E Hc Hge) as [(q & e' & ->)| ->];
      discriminate.
Qed.

Lemma mul_ge1_negative x c mc ec :
  (x <? 0)%float = true -> Prim2SF c = S754_finite false mc ec ->
  1 <= dg mc + ec -> (x * c <? 0)%float = true.
Proof.
  intros H Hc Hge. apply negative_spec in H. apply negative_intro.
  destruct H as [E|(m & e & E)].
  - left. now rewrite mul_spec, E, Hc.
  - destruct (mul_ge1_sign x c true m e mc ec E Hc Hge) as [(q & e' & H)|H];
      [right; eauto|now left].
Qed.

Lemma add_zero_l x : not_negzero x -> (0 + x)%float = x.
Proof.
  unfold not_negzero. intros H. apply Prim2SF_inj. rewrite add_spec.
  change (Prim2SF 0) with (S754_zero false).
  destruct (Prim2SF x) as [s|s| |s m e]; try reflexivity.
  destruct s; [congruence|reflexivity].
Qed.

(** A number that is neither above nor below zero, and is not [NaN] nor
    [-0], is [0]. *)
Lemma zero_of_unsigned x :
  is_nan x = false -> not_negzero x ->
  (0 <? x)%float = false -> (x <? 0)%float = false -> x = 0%float.
Proof.
  unfold not_negzero. rewrite is_nan_spec, !ltb_spec.
  change (Prim2SF 0) with (S754_zero false). intros Hn Hz H1 H2.
  apply Prim2SF_inj. change (Prim2SF 0) with (S754_zero false).
  destruct (Prim2SF x) as [s|s| |s m e]; try discriminate;
    destruct s; try discriminate; congruence.
Qed.

Lemma constants_ge1 :
  (exists mc ec, Prim2SF 20 = S754_finite false mc ec /\ 1 <= dg mc + ec)
  /\ (exists mc ec, Prim2SF 15 = S754_finite false mc ec /\ 1 <= dg mc + ec)
  /\ (exists mc ec, Prim2SF 2 = S754_finite false mc ec /\ 1 <= dg mc + ec)
  /\ (exists mc ec, Prim2SF 50 = S754_finite false mc ec /\ 1 <= dg mc + ec).
Proof.
  repeat split; eexists; eexists; (split; [vm_compute; reflexivity|]);
    vm_compute; discriminate.
Qed.

Lemma mBul_not_negzero n : not_negzero n -> not_negzero (n * prixBul_of n)%float.
Proof.
  intros Hn. destruct constants_ge1 as ((m20 & e20 & H20 & G20)
    & (m15 & e15 & H15 & G15) & _).
  unfold prixBul_of. destruct (n <=? 20)%float.
  - now apply (mul_ge1_not_negzero n _ m20 e20).
  - now apply (mul_ge1_not_negzero n _ m15 e15).
Qed.

Lemma mCoffre_not_negzero n (coffre : bool) :
  not_negzero n -> not_negzero (if coffre then (n * 2)%float else 0%float).
Proof.
  intros Hn. destruct constants_ge1 as (_ & _ & (m2 & e2 & H2 & G2) & _).
  destruct coffre; [now apply (mul_ge1_not_negzero n _ m2 e2)|].
  unfold not_negzero. vm_compute. discriminate.
Qed.

(** What a count that is neither positive nor negative adds. *)
Lemma unsigned_count_amount x c :
  (0 * c)%float = 0%float ->
  (0 <? Js.or_zero x)%float = false -> (Js.or_zero x <? 0)%float = false ->
  (Js.or_zero x * c)%float = 0%float.
Proof.
  intros Hc H1 H2.
  now rewrite (zero_of_unsigned _ (or_zero_not_nan x) (or_zero_not_negzero x) H1 H2).
Qed.

(** X14.  When neither the hires nor the exits are negative, the amounts
    of the rows written, added from the first row to the last, are the
    monthly total: a row is left out only when it would add nothing. *)
Theorem details_add_up (form : ForfaitForm) :
  (f_entrees (calcForfait form) <? 0)%float = false ->
  (f_sorties (calcForfait form) <? 0)%float = false ->
  details_sum (f_details (calcForfait form)) = f_total (calcForfait form).
Proof.
  unfold calcForfait. cbn [f_entrees f_sorties f_details f_total].
  set (n := Js.or_zero (Js.parseInt (forf_sal form))).
  pose proof (mBul_not_negzero n (or_zero_not_negzero _)) as HB.
  pose proof (mCoffre_not_negzero n (forf_coffre form) (or_zero_not_negzero _)) as HC.
  set (mBul := (n * prixBul_of n)%float) in *.
  change (coffreFort FORFAIT_CONFIG) with 2%float.
  change (entree FORFAIT_CONFIG) with 15%float.
  change (sortie FORFAIT_CONFIG) with 50%float.
  intros Hin Hout.
  set (a := (mBul + (if forf_coffre form then n * 2 else 0))%float).
  assert (Ha : not_negzero a) by now apply add_not_negzero.
  assert (Hd : fold_left (fun s r => (s + montant r)%float)
                 (if forf_coffre form then [RCoffre n (n * 2)] else [])
                 (0 + mBul)%float = a).
  { rewrite (add_zero_l _ HB). unfold a.
    destruct (forf_coffre form); [reflexivity|]. simpl.
    symmetry. now apply add_zero_r. }
  unfold details_sum. cbn [app fold_left montant].
  rewrite fold_left_app.
  replace (fold_left _ (if forf_coffre form then [RCoffre n _] else []) _)
    with a
    by (rewrite <- Hd; destruct (forf_coffre form); reflexivity).
  fold a. rewrite fold_left_app.
  destruct (0 <? Js.or_zero (Js.parseInt (forf_in form)))%float eqn:Ei;
    [|rewrite (unsigned_count_amount _ 15 eq_refl Ei Hin),
              (add_zero_r a 0 Ha eq_refl)];
    (destruct (0 <? Js.or_zero (Js.parseInt (forf_out form)))%float eqn:Eo;
     [reflexivity|rewrite (unsigned_count_amount _ 50 eq_refl Eo Hout)]);
    cbn [fold_left montant]; symmetry; apply add_zero_r;
    try reflexivity; try exact Ha; now apply add_not_negzero.
Qed.

Lemma details_add_up_witness :
  details_sum (f_details (calcForfait (mkForfaitForm "12" "0" "3" true)))
  = f_total (calcForfait (mkForfaitForm "12" "0" "3" true)).
Proof.
  apply (details_add_up (mkForfaitForm "12" "0" "3" true));
    vm_compute; reflexivity.
Defined.

Lemma negative_not_positive x : (x <? 0)%float = true -> (0 <? x)%float = false.
Proof.
  intros H. apply negative_spec in H. rewrite ltb_spec.
  change (Prim2SF 0) with (S754_zero false).
  destruct H as [->|(m & e & ->)]; reflexivity.
Qed.

(** The sum of the rows written, by the rows that are written. *)
Lemma details_sum_unfold (form : ForfaitForm) :
  details_sum (f_details (calcForfait form))
  = (let a := (f_mBul (calcForfait form) + f_mCoffre (calcForfait form))%float in
     let b := if (0 <? f_entrees (calcForfait form))%float
              then (a + f_mIn (calcForfait form))%float else a in
     if (0 <? f_sorties (calcForfait form))%float
     then (b + f_mOut (calcForfait form))%float else b).
Proof.
  unfold calcForfait.
  cbn [f_entrees f_sorties f_details f_mBul f_mCoffre f_mIn f_mOut].
  set (n := Js.or_zero (Js.parseInt (forf_sal form))).
  pose proof (mBul_not_negzero n (or_zero_not_negzero _)) as HB.
  set (mBul := (n * prixBul_of n)%float) in *.
  change (coffreFort FORFAIT_CONFIG) with 2%float.
  unfold details_sum. cbn [app fold_left montant]. rewrite (add_zero_l _ HB).
  cbv zeta.
  destruct (forf_coffre form); cbn [app fold_left montant];
    [|rewrite (add_zero_r mBul 0 HB eq_refl)];
    destruct (0 <? Js.or_zero (Js.parseInt (forf_in form)))%float;
    destruct (0 <? Js.or_zero (Js.parseInt (forf_out form)))%float;
    reflexivity.
Qed.

(** X15.  A negative count of hires or of exits is not refused.  Its row
    is not written, its amount is negative and the monthly total counts
    it: with the other of the two counts not negative, the total is the
    sum of the rows written plus the amount that is not shown. *)
Theorem negative_counts_hidden (form : ForfaitForm) :
  ((f_entrees (calcForfait form) <? 0)%float = true ->
   (forall k a, ~ In (REntrees k a) (f_details (calcForfait form)))
   /\ (f_mIn (calcForfait form) <? 0)%float = true
   /\ ((0 <? f_sorties (calcForfait form))%float = false ->
       (f_sorties (calcForfait form) <? 0)%float = false ->
       f_total (calcForfait form)
       = (details_sum (f_details (calcForfait form))
          + f_mIn (calcForfait form))%float))
  /\ ((f_sorties (calcForfait form) <? 0)%float = true ->
      (forall k a, ~ In (RSorties k a) (f_details (calcForfait form)))
      /\ (f_mOut (calcForfait form) <? 0)%float = true
      /\ ((f_entrees (calcForfait form) <? 0)%float = false ->
          f_total (calcForfait form)
          = (details_sum (f_details (calcForfait form))
             + f_mOut (calcForfait form))%float)).
Proof.
  destruct constants_ge1 as (_ & (m15 & e15 & H15 & G15) & _
                             & (m50 & e50 & H50 & G50)).
  pose proof (details_sum_unfold form) as Hd. cbv zeta in Hd.
  assert (Ha : not_negzero (f_mBul (calcForfait form)
                            + f_mCoffre (calcForfait form))%float).
  { apply add_not_negzero. apply mBul_not_negzero, or_zero_not_negzero. }
  split; intros Hneg; pose proof (negative_not_positive _ Hneg) as Hnp.
  - split; [|split].
    + intros k a. unfold calcForfait in *. cbn [f_details f_entrees] in *.
      rewrite Hnp.
      destruct (forf_coffre form);
        destruct (0 <? Js.or_zero (Js.parseInt (forf_out form)))%float;
        cbn [app In]; intros H;
        repeat (destruct H as [H|H]; [discriminate H|]); exact H.
    + exact (mul_ge1_negative _ _ m15 e15 Hneg H15 G15).
    + intros Hp Hn. rewrite Hd, Hnp, Hp.
      change (f_total (calcForfait form))
        with (f_mBul (calcForfait form) + f_mCoffre (calcForfait form)
              + f_mIn (calcForfait form) + f_mOut (calcForfait form))%float.
      change (f_mOut (calcForfait form))
        with (Js.or_zero (Js.parseInt (forf_out form)) * 50)%float.
      rewrite (unsigned_count_amount _ 50 eq_refl Hp Hn).
      apply add_zero_r; [now apply add_not_negzero|reflexivity].
  - split; [|split].
    + intros k a. unfold calcForfait in *. cbn [f_details f_sorties] in *.
      rewrite Hnp.
      destruct (forf_coffre form);
        destruct (0 <? Js.or_zero (Js.parseInt (forf_in form)))%float;
        cbn [app In]; intros H;
        repeat (destruct H as [H|H]; [discriminate H|]); exact H.
    + exact (mul_ge1_negative _ _ m50 e50 Hneg H50 G50).
    + intros Hn. rewrite Hd, Hnp.
      change (f_total (calcForfait form))
        with (f_mBul (calcForfait form) + f_mCoffre (calcForfait form)
              + f_mIn (calcForfait form) + f_mOut (calcForfait form))%float.
      destruct (0 <? f_entrees (calcForfait form))%float eqn:Ep; [reflexivity|].
      change (f_mIn (calcForfait form))
        with (Js.or_zero (Js.parseInt (forf_in form)) * 15)%float.
      rewrite (unsigned_count_amount _ 15 eq_refl Ep Hn).
      now rewrite (add_zero_r _ 0 Ha eq_refl).
Qed.

Lemma negative_counts_hidden_witness :
  (f_mIn (calcForfait (mkForfaitForm "10" "-2" "" false)) <? 0)%float = true
  /\ f_total (calcForfait (mkForfaitForm "10" "-2" "" false))
     = (details_sum (f_details (calcForfait (mkForfaitForm "10" "-2" "" false)))
        + f_mIn (calcForfait (mkForfaitForm "10" "-2" "" false)))%float
  /\ f_total (calcForfait (mkForfaitForm "10" "1" "-1" true))
     = (details_sum (f_details (calcForfait (mkForfaitForm "10" "1" "-1" true)))
        + f_mOut (calcForfait (mkForfaitForm "10" "1" "-1" true)))%float.
Proof.
  destruct (proj1 (negative_counts_hidden (mkForfaitForm "10" "-2" "" false))
              eq_refl) as (_ & H1 & H2).
  destruct (proj2 (negative_counts_hidden (mkForfaitForm "10" "1" "-1" true))
              eq_refl) as (_ & _ & H3).
  split; [exact H1|]. split; [apply H2; reflexivity|apply H3; reflexivity].
Defined.

End Breakdown.

(* ================================================================== *)
(** * The estimator on integer counts                                   *)
(* ================================================================== *)

Section IntegerCounts.

Lemma toFixed2_canon (s : bool) (N : positive) :
  Zpos N < 2 ^ 53 ->
  match canon s N 0 with
  | S754_finite s' m e =>
      s' = s
      /\ (if 0 <=? e then 10 ^ 21 <=? Zpos m * 2 ^ e
          else 10 ^ 21 * 2 ^ (- e) <=? Zpos m) = false
      /\ (if 0 <=? e then Zpos m * 2 ^ e * 100
          else (Zpos m * 200 + 2 ^ (- e)) / 2 ^ (1 - e)) = Zpos N * 100
  | _ => False
  end.
Proof.
  intros HN. destruct (canon_mantissa N HN) as [Hq Hd]. unfold canon.
  rewrite Hq. split; [reflexivity|].
  assert (H21 : 2 ^ 53 < 10 ^ 21) by (vm_compute; reflexivity).
  destruct (0 <=? 0 + dg N - 53) eqn:E.
  - apply Z.leb_le in E. replace (dg N) with 53 by lia.
    replace (0 + 53 - 53) with 0 by lia. replace (53 - 53) with 0 by lia.
    rewrite !Z.pow_0_r, !Z.mul_1_r. split; [apply Z.leb_gt; lia|lia].
  - apply Z.leb_gt in E. set (k := 53 - dg N).
    replace (- (0 + dg N - 53)) with k by (unfold k; lia).
    replace (1 - (0 + dg N - 53)) with (1 + k) by (unfold k; lia).
    assert (Hk : 0 < 2 ^ k) by (apply Z.pow_pos_nonneg; unfold k; lia).
    split.
    + apply Z.leb_gt. nia.
    + rewrite Z.pow_add_r by (unfold k; lia).
      replace (Zpos N * 2 ^ k * 200 + 2 ^ k) with ((Zpos N * 200 + 1) * 2 ^ k) by ring.
      rewrite Z.div_mul_cancel_r by lia.
      change (2 ^ 1) with 2.
      replace (Zpos N * 200 + 1) with (1 + (Zpos N * 100) * 2) by ring.
      rewrite Z.div_add by lia. reflexivity.
Qed.

Lemma append_assoc_string (a b c : string) :
  String.append (String.append a b) c = String.append a (String.append b c).
Proof. induction a as [|x a IH]; simpl; [reflexivity|now rewrite IH]. Qed.

Lemma hundredths_whole n :
  Js.hundredths (n * 100) = String.append (Js.dec_string n) ".00".
Proof.
  unfold Js.hundredths. cbv zeta.
  rewrite Z.div_mul, Z.mod_mul by lia. reflexivity.
Qed.

(** [toFixed(2)] on an integer in the exact range: the integer, then
    [.00]. *)
Lemma toFixed2_of_Z T :
  0 <= T < 2 ^ 53 ->
  Js.toFixed2 (Js.of_Z T) = Some (String.append (Js.dec_string T) ".00").
Proof.
  intros HT. unfold Js.of_Z. fold (Js.of_dyadic T 0). unfold Js.toFixed2.
  rewrite of_dyadic_spec by (try apply erange_0; unfold small; lia).
  destruct T as [|N|N]; [reflexivity| |lia]. unfold rep.
  pose proof (toFixed2_canon false N (proj2 HT)) as H.
  destruct (canon false N 0) as [?|?| |s' m e]; try contradiction.
  destruct H as (-> & -> & ->). now rewrite hundredths_whole.
Qed.

(** The totals of the estimator on integer counts in the exact range. *)
Lemma calcForfait_integers (form : ForfaitForm) (n h s : Z) :
  0 <= n -> 0 <= h -> 0 <= s ->
  12 * (20 * n + 2 * n + 15 * h + 50 * s) < 2 ^ 53 ->
  f_n (calcForfait form) = Js.of_Z n ->
  f_entrees (calcForfait form) = Js.of_Z h ->
  f_sorties (calcForfait form) = Js.of_Z s ->
  f_total (calcForfait form)
  = Js.of_Z (n * (if n <=? 20 then 20 else 15)
             + (if forf_coffre form then n * 2 else 0) + h * 15 + s * 50)
  /\ f_annuel (calcForfait form)
     = Js.of_Z ((n * (if n <=? 20 then 20 else 15)
                 + (if forf_coffre form then n * 2 else 0)
                 + h * 15 + s * 50) * 12).
Proof.
  intros Hn Hh Hs Hb En Eh Es.
  assert (HP : 15 <= (if n <=? 20 then 20 else 15) <= 20)
    by (destruct (n <=? 20); lia).
  set (P := if n <=? 20 then 20 else 15) in *.
  assert (HC : 0 <= (if forf_coffre form then n * 2 else 0) <= n * 2)
    by (destruct (forf_coffre form); lia).
  change (f_annuel (calcForfait form)) with (f_total (calcForfait form) * 12)%float.
  change (f_total (calcForfait form))
    with (f_n (calcForfait form) * prixBul_of (f_n (calcForfait form))
          + (if forf_coffre form then f_n (calcForfait form) * 2 else 0)
          + f_entrees (calcForfait form) * 15
          + f_sorties (calcForfait form) * 50)%float.
  rewrite En, Eh, Es, prixBul_of_Z by (unfold small; lia). fold P.
  replace (if forf_coffre form then (Js.of_Z n * 2)%float else 0%float)
    with (Js.of_Z (if forf_coffre form then n * 2 else 0)).
  2:{ destruct (forf_coffre form); [|vm_compute; reflexivity].
      change 2%float with (Js.of_Z 2). symmetry. apply of_Z_mul; lia. }
  set (C := if forf_coffre form then n * 2 else 0) in *.
  change 15%float with (Js.of_Z 15). change 50%float with (Js.of_Z 50).
  change 12%float with (Js.of_Z 12).
  rewrite !of_Z_mul by nia. rewrite !of_Z_add by nia.
  split; [reflexivity|]. apply of_Z_mul; nia.
Qed.

(** X16.  On integer counts within the exact range, the monthly and the
    annual text are whole amounts: the integer the formula gives, then
    ".00 €". *)
Theorem forfait_whole_euros (form : ForfaitForm) (n h s : Z) :
  0 <= n -> 0 <= h -> 0 <= s ->
  12 * (20 * n + 2 * n + 15 * h + 50 * s) < 2 ^ 53 ->
  f_n (calcForfait form) = Js.of_Z n ->
  f_entrees (calcForfait form) = Js.of_Z h ->
  f_sorties (calcForfait form) = Js.of_Z s ->
  forf_mens form
  = Some (String.append
            (Js.dec_string (n * (if n <=? 20 then 20 else 15)
                            + (if forf_coffre form then n * 2 else 0)
                            + h * 15 + s * 50)) ".00 €")
  /\ forf_an form
     = Some (String.append
               (Js.dec_string (12 * (n * (if n <=? 20 then 20 else 15)
                                     + (if forf_coffre form then n * 2 else 0)
                                     + h * 15 + s * 50))) ".00 €").
Proof.
  intros Hn Hh Hs Hb En Eh Es.
  destruct (calcForfait_integers form n h s Hn Hh Hs Hb En Eh Es) as [Et Ea].
  assert (HP : 15 <= (if n <=? 20 then 20 else 15) <= 20)
    by (destruct (n <=? 20); lia).
  assert (HC : 0 <= (if forf_coffre form then n * 2 else 0) <= n * 2)
    by (destruct (forf_coffre form); lia).
  unfold forf_mens, forf_an. rewrite Et, Ea.
  set (T := n * (if n <=? 20 then 20 else 15)
            + (if forf_coffre form then n * 2 else 0) + h * 15 + s * 50) in *.
  assert (HT : 0 <= T /\ 12 * T < 2 ^ 53) by (unfold T; nia).
  rewrite (Z.mul_comm T 12), !toFixed2_of_Z by lia.
  cbn [option_map]. rewrite !append_assoc_string. split; reflexivity.
Qed.

Lemma forfait_whole_euros_witness :
  forf_mens (mkForfaitForm "40" "3" "2" false) = Some "745.00 €"
  /\ forf_an (mkForfaitForm "40" "3" "2" false) = Some "8940.00 €".
Proof.
  apply (forfait_whole_euros (mkForfaitForm "40" "3" "2" false) 40 3 2);
    try lia; vm_compute; reflexivity.
Defined.

(** X18.  The amount for the payslips does not grow with the headcount:
    on an integer headcount it is the headcount times 20 up to 20 and times
    15 above, so it is below the amount for 20 employees not only under 20
    but also from 21 to 26. *)
Theorem payslips_not_monotone (form : ForfaitForm) (n : Z) :
  0 <= n -> 20 * n < 2 ^ 53 ->
  f_n (calcForfait form) = Js.of_Z n ->
  f_mBul (calcForfait form) = Js.of_Z (n * (if n <=? 20 then 20 else 15))
  /\ ((f_mBul (calcForfait form)
       <? f_mBul (calcForfait (mkForfaitForm "20" "" "" false)))%float = true
      <-> n < 20 \/ 21 <= n <= 26).
Proof.
  intros Hn Hb En.
  assert (HP : 15 <= (if n <=? 20 then 20 else 15) <= 20)
    by (destruct (n <=? 20); lia).
  assert (Em : f_mBul (calcForfait form)
               = Js.of_Z (n * (if n <=? 20 then 20 else 15))).
  { change (f_mBul (calcForfait form))
      with (f_n (calcForfait form) * prixBul_of (f_n (calcForfait form)))%float.
    rewrite En, prixBul_of_Z by (unfold small; lia). apply of_Z_mul; nia. }
  split; [exact Em|]. rewrite Em.
  replace (f_mBul (calcForfait (mkForfaitForm "20" "" "" false)))
    with (Js.of_Z 400) by (vm_compute; reflexivity).
  unfold Js.of_Z. fold (Js.of_dyadic (n * (if n <=? 20 then 20 else 15)) 0).
  fold (Js.of_dyadic 400 0).
  rewrite ltb_exact by (try apply erange_0; unfold small; simpl; nia).
  rewrite Z.ltb_lt. destruct (n <=? 20) eqn:E;
    [apply Z.leb_le in E|apply Z.leb_gt in E]; lia.
Qed.

Lemma payslips_not_monotone_witness :
  (f_mBul (calcForfait (mkForfaitForm "26" "" "" false))
   <? f_mBul (calcForfait (mkForfaitForm "20" "" "" false)))%float = true.
Proof.
  apply (proj2 (payslips_not_monotone (mkForfaitForm "26" "" "" false) 26
                  ltac:(lia) ltac:(lia) ltac:(vm_compute; reflexivity))).
  right. lia.
Defined.

End IntegerCounts.

(* ================================================================== *)
(** * Quantities below zero                                             *)
(* ================================================================== *)

Section Quantities.

Lemma SFmul_comm x y : SFmul prec emax x y = SFmul prec emax y x.
Proof.
  destruct x as [sx|sx| |sx mx ex], y as [sy|sy| |sy my ey]; cbn [SFmul];
    try reflexivity; try (now rewrite xorb_comm).
  now rewrite xorb_comm, Pos.mul_comm, Z.add_comm.
Qed.

Lemma mul_comm_float x y : (x * y)%float = (y * x)%float.
Proof. apply Prim2SF_inj. rewrite !mul_spec. apply SFmul_comm. Qed.

(** A price of the list is a finite number that is at least 1. *)
Lemma entier_ge1 t :
  tarif_entier t = true ->
  exists mc ec, Prim2SF (tarif t) = S754_finite false mc ec /\ 1 <= dg mc + ec.
Proof.
  unfold tarif_entier. intros H. apply andb_prop in H. destruct H as [He Hp].
  apply exact_at_spec in He. destruct He as [E Hs]. apply Z.ltb_lt in Hp.
  rewrite E, of_dyadic_spec by (try apply erange_0; assumption).
  destruct (to_units 0 (tarif t)) as [|N|N]; try lia.
  unfold small in Hs. simpl Z.abs in Hs.
  destruct (canon_mantissa N Hs) as [Hq Hd]. unfold rep, canon.
  do 2 eexists. split; [reflexivity|].
  rewrite (dg_shift _ N (53 - dg N)) by (lia || (rewrite Hq; reflexivity)).
  lia.
Qed.

(** X4.  A quantity below zero is not refused: on a line with a code of
    the price list it gives a negative amount, the line is counted, and a
    quote of that one line has a negative total. *)
Theorem negative_quantity (l : Ligne) (t : Tarif) :
  Obj.own TARIFS (ref l) = Some t ->
  (Js.parseFloat (qte l) <? 0)%float = true ->
  counted l = true
  /\ row_amount l = (tarif t * Js.parseFloat (qte l))%float
  /\ (row_amount l <? 0)%float = true
  /\ calcTotal [l] = row_amount l
  /\ forall s, total_step s l = (s + row_amount l)%float.
Proof.
  intros Ht Hq.
  assert (Hk : Js.str_truthy (ref l) = true).
  { assert (Hall : forallb (fun e => Js.str_truthy (fst e)) TARIFS = true)
      by (vm_compute; reflexivity).
    rewrite forallb_forall in Hall. apply (Hall (ref l, t)). now apply own_In. }
  assert (Hs : Js.str_truthy (qte l) = true).
  { destruct (qte l); [|reflexivity]. vm_compute in Hq. discriminate. }
  assert (Hg : Obj.get TARIFS (ref l) = Obj.Own t) by now apply get_own.
  assert (Hc : counted l = true).
  { unfold counted. now rewrite Hk, Hs, Hg. }
  assert (Ha : row_amount l = (tarif t * Js.parseFloat (qte l))%float).
  { unfold row_amount. rewrite (counted_row_tarif l Hc), Hg. reflexivity. }
  assert (Hn : (row_amount l <? 0)%float = true).
  { rewrite Ha, mul_comm_float.
    destruct (entier_ge1 t (proj1 (TARIFS_entiers _ _ Ht))) as (mc & ec & E & G).
    exact (mul_ge1_negative _ _ mc ec Hq E G). }
  split; [exact Hc|]. split; [exact Ha|]. split; [exact Hn|]. split.
  - unfold calcTotal. simpl. rewrite total_step_counted, Hc.
    apply add_zero_l. unfold not_negzero.
    apply negative_spec in Hn. destruct Hn as [->|(m & e & ->)]; discriminate.
  - intros s. now rewrite total_step_counted, Hc.
Qed.

Lemma negative_quantity_witness :
  (row_amount (mkLigne 1 "BUL-001" "-2") <? 0)%float = true
  /\ calcTotal [mkLigne 1 "BUL-001" "-2"] = (-40)%float.
Proof.
  destruct (negative_quantity (mkLigne 1 "BUL-001" "-2")
              (mkTarif "Bulletin (1-20 sal.)" 20 "€/bul" "Bulletins")
              eq_refl eq_refl) as (_ & _ & H1 & H2 & _).
  split; [exact H1|]. rewrite H2. vm_compute. reflexivity.
Defined.

End Quantities.

(* ================================================================== *)
(** * The grouping of [renderGrille] on any price list                  *)
(* ================================================================== *)

Section GrilleAny.

Lemma own_replace {V} k (v : V) o k' :
  Obj.own (Obj.replace k v o) k'
  = if String.eqb k k' then option_map (fun _ => v) (Obj.own o k)
    else Obj.own o k'.
Proof.
  induction o as [|[a b] r IH]; simpl; [now destruct (String.eqb k k')|].
  destruct (String.eqb a k) eqn:E; simpl.
  - apply String.eqb_eq in E. subst a.
    now destruct (String.eqb k k').
  - rewrite IH. destruct (String.eqb k k') eqn:E'; [|reflexivity].
    apply String.eqb_eq in E'. subst k'. now rewrite E.
Qed.

Lemma keys_replace {V} k (v : V) o :
  map fst (Obj.replace k v o) = map fst o.
Proof.
  induction o as [|[a b] r IH]; simpl; [reflexivity|].
  destruct (String.eqb a k); simpl; [reflexivity|now rewrite IH].
Qed.

Lemma own_insert_new {V} k (v : V) o k' :
  Obj.own o k = None ->
  Obj.own (Obj.insert_new k v o) k'
  = if String.eqb k k' then Some v else Obj.own o k'.
Proof.
  induction o as [|[a b] r IH]; simpl; [reflexivity|].
  destruct (String.eqb a k) eqn:E; [discriminate|]. intros Hr.
  assert (Hrec : Obj.own ((a, b) :: Obj.insert_new k v r) k'
                 = if String.eqb k k' then Some v
                   else if String.eqb a k' then Some b else Obj.own r k').
  { simpl. rewrite (IH Hr). destruct (String.eqb k k') eqn:E'; [|reflexivity].
    apply String.eqb_eq in E'. subst k'. now rewrite E. }
  destruct (Obj.array_index k) as [n|]; [|exact Hrec].
  destruct (Obj.array_index a) as [n'|]; [|reflexivity].
  destruct (n <? n'); [reflexivity|exact Hrec].
Qed.

Lemma keys_insert_new {V} k (v : V) o :
  Permutation (map fst (Obj.insert_new k v o)) (k :: map fst o).
Proof.
  induction o as [|[a b] r IH]; simpl; [reflexivity|].
  assert (Hrec : Permutation (map fst ((a, b) :: Obj.insert_new k v r))
                             (k :: a :: map fst r)).
  { simpl. rewrite IH. apply perm_swap. }
  destruct (Obj.array_index k) as [n|]; [|exact Hrec].
  destruct (Obj.array_index a) as [n'|]; [|reflexivity].
  destruct (n <? n'); [reflexivity|exact Hrec].
Qed.

Lemma own_keys {V} (o : Obj.t V) k :
  Obj.own o k = None <-> ~ In k (map fst o).
Proof.
  induction o as [|[a b] r IH]; simpl; [tauto|].
  destruct (String.eqb a k) eqn:E.
  - apply String.eqb_eq in E. split; [discriminate|tauto].
  - apply String.eqb_neq in E. rewrite IH. tauto.
Qed.

(** The loop of [renderGrille] on a list none of whose categories names
    an inherited member: the object built has one property per category,
    holding the entries of the category in the order of the list. *)
Lemma grille_fold_any (es : list (string * Tarif)) :
  forallb (fun e => negb (Obj.inherited (cat_of e))) es = true ->
  exists c, fold_left grille_step es (Some []) = Some c
            /\ NoDup (map fst c)
            /\ forall k, Obj.own c k
                         = if in_dec string_dec k (map cat_of es)
                           then Some (items_of k es) else None.
Proof.
  induction es as [|e p IH] using rev_ind; intros Hall.
  - exists []. repeat split; constructor.
  - rewrite forallb_app in Hall. apply andb_prop in Hall.
    destruct Hall as [Hp He]. simpl in He. rewrite andb_true_r in He.
    apply negb_true_iff in He.
    destruct (IH Hp) as (c & Hc & Hnd & Hown). clear IH.
    rewrite fold_left_app, Hc. simpl.
    unfold Obj.get, Obj.set. fold (cat_of e) (item_of e).
    rewrite (Hown (cat_of e)).
    assert (Hin : forall k, In k (map cat_of (p ++ [e]))
                            <-> k = cat_of e \/ In k (map cat_of p)).
    { intros k. rewrite map_app, in_app_iff. simpl. intuition. }
    destruct (in_dec string_dec (cat_of e) (map cat_of p)) as [Hy|Hn].
    + eexists. split; [reflexivity|]. split; [now rewrite keys_replace|].
      intros k. rewrite own_replace, !Hown, items_of_snoc.
      destruct (in_dec string_dec (cat_of e) (map cat_of p)); [|contradiction].
      destruct (String.eqb (cat_of e) k) eqn:E.
      * apply String.eqb_eq in E. subst k. simpl.
        destruct (in_dec string_dec (cat_of e) (map cat_of (p ++ [e])))
          as [_|H]; [reflexivity|]. exfalso. apply H, Hin. now left.
      * apply String.eqb_neq in E.
        destruct (in_dec string_dec k (map cat_of p)) as [H1|H1];
          destruct (in_dec string_dec k (map cat_of (p ++ [e]))) as [H2|H2];
          try reflexivity; exfalso.
        -- apply H2, Hin. now right.
        -- apply Hin in H2. destruct H2; [congruence|contradiction].
    + rewrite He.
      assert (Hc0 : Obj.own c (cat_of e) = None).
      { rewrite Hown. now destruct (in_dec string_dec (cat_of e) (map cat_of p)). }
      eexists. split; [reflexivity|]. split.
      * apply (Permutation_NoDup (Permutation_sym (keys_insert_new _ _ c))).
        constructor; [now apply own_keys|exact Hnd].
      * intros k. rewrite (own_insert_new _ _ c k Hc0), Hown, items_of_snoc.
        destruct (String.eqb (cat_of e) k) eqn:E.
        -- apply String.eqb_eq in E. subst k.
           rewrite (items_of_absent _ _ Hn). simpl.
           destruct (in_dec string_dec (cat_of e) (map cat_of (p ++ [e])))
             as [_|H]; [reflexivity|]. exfalso. apply H, Hin. now left.
        -- apply String.eqb_neq in E.
           destruct (in_dec string_dec k (map cat_of p)) as [H1|H1];
             destruct (in_dec string_dec k (map cat_of (p ++ [e]))) as [H2|H2];
             try reflexivity; exfalso.
           ++ apply H2, Hin. now right.
           ++ apply Hin in H2. destruct H2; [congruence|contradiction].
Qed.

(** When a category names an inherited member the loop throws. *)
Lemma grille_fold_fails (es : list (string * Tarif)) :
  forallb (fun e => negb (Obj.inherited (cat_of e))) es = false ->
  fold_left grille_step es (Some []) = None.
Proof.
  induction es as [|e p IH] using rev_ind; intros Hall; [discriminate|].
  rewrite fold_left_app. simpl.
  rewrite forallb_app in Hall.
  destruct (forallb (fun e => negb (Obj.inherited (cat_of e))) p) eqn:Hp.
  - simpl in Hall. rewrite andb_true_r in Hall. apply negb_false_iff in Hall.
    destruct (grille_fold_any p Hp) as (c & -> & _ & Hown). simpl.
    unfold Obj.get. fold (cat_of e). rewrite Hown.
    destruct (in_dec string_dec (cat_of e) (map cat_of p)) as [Hy|_];
      [|now rewrite Hall].
    exfalso. apply in_map_iff in Hy. destruct Hy as (x & Ex & Hx).
    rewrite forallb_forall in Hp. specialize (Hp x Hx).
    rewrite Ex, Hall in Hp. discriminate.
  - now rewrite IH.
Qed.

(** X17.  The grouping on any price list.  [renderGrille] throws exactly
    when a category of the list names an inherited member of objects.
    Otherwise it yields one group per category, each with the entries of
    the category in the order of the list, the groups together a
    rearrangement of the list; the groups are in the order in which the
    list first mentions them when no category is an array index. *)
Theorem grille_of_any (T : Obj.t Tarif) :
  (grille_of T = None
   <-> exists e, In e (Obj.entries T) /\ Obj.inherited (cat_of e) = true)
  /\ forall groups, grille_of T = Some groups ->
       NoDup (map fst groups)
       /\ (forall c items, In (c, items) groups
                           <-> In c (map cat_of (Obj.entries T))
                               /\ items = items_of c (Obj.entries T))
       /\ Permutation (List.concat (map snd groups))
                      (map item_of (Obj.entries T))
       /\ ((forall e, In e (Obj.entries T) ->
                      Obj.array_index (cat_of e) = None) ->
           map fst groups = first_seen (map cat_of (Obj.entries T))).
Proof.
  unfold grille_of. set (es := Obj.entries T).
  destruct (forallb (fun e => negb (Obj.inherited (cat_of e))) es) eqn:Hall.
  - destruct (grille_fold_any es Hall) as (c & Hc & Hnd & Hown).
    rewrite Hc. cbn [option_map]. unfold Obj.entries at 1 2. split.
    + split; [discriminate|]. intros (e & He & Hi).
      rewrite forallb_forall in Hall. specialize (Hall e He).
      rewrite Hi in Hall. discriminate.
    + intros groups E. injection E as <-.
      assert (Hmem : forall k items, In (k, items) c
                       <-> In k (map cat_of es) /\ items = items_of k es).
      { intros k items. split.
        - intros H. apply (own_of_In c k items Hnd) in H. rewrite Hown in H.
          destruct (in_dec string_dec k (map cat_of es)); [|discriminate].
          injection H as <-. now split.
        - intros [Hk ->]. apply own_In. rewrite Hown.
          now destruct (in_dec string_dec k (map cat_of es)). }
      split; [exact Hnd|]. split; [exact Hmem|]. split.
      * replace (map snd c) with (map (fun k => items_of k es) (map fst c)).
        -- apply concat_groups_perm; [exact Hnd|].
           intros e He. assert (Hk : In (cat_of e) (map cat_of es)) by now apply in_map.
           change (cat_of e) with (fst (cat_of e, items_of (cat_of e) es)).
           apply in_map. now apply Hmem.
        -- rewrite map_map. apply map_ext_in. intros [k items] Hin.
           apply Hmem in Hin. simpl. now destruct Hin as [_ ->].
      * intros Hidx.
        assert (Hg : fold_left grille_step es (Some []) = Some (groups_of es)).
        { apply grille_fold. intros e He. unfold ordinary_key.
          rewrite forallb_forall in Hall. rewrite (Hall e He), (Hidx e He).
          reflexivity. }
        rewrite Hc in Hg. injection Hg as ->.
        unfold groups_of. rewrite map_map. apply map_id.
  - rewrite (grille_fold_fails es Hall). cbn [option_map]. split.
    + split; [intros _|reflexivity].
      assert (Hex : existsb (fun e => Obj.inherited (cat_of e)) es = true).
      { clear -Hall. induction es as [|e r IH]; [discriminate|]. simpl in *.
        destruct (Obj.inherited (cat_of e)); [reflexivity|]. now apply IH. }
      apply existsb_exists in Hex. exact Hex.
    + discriminate.
Qed.

Lemma grille_of_any_witness :
  grille_of [("A-1", mkTarif "Audit" 120 "€/h" "constructor")] = None
  /\ map fst (match grille_of [("A-1", mkTarif "Audit" 120 "€/h" "Audit");
                               ("B-1", mkTarif "Bulletin" 20 "€/bul" "Paie");
                               ("A-2", mkTarif "Conseil" 90 "€/h" "Audit")]
              with Some g => g | None => [] end)
     = ["Audit"; "Paie"].
Proof.
  split.
  - apply (proj1 (grille_of_any _)).
    eexists. split; [left; reflexivity|reflexivity].
  - apply (proj2 (grille_of_any
                    [("A-1", mkTarif "Audit" 120 "€/h" "Audit");
                     ("B-1", mkTarif "Bulletin" 20 "€/bul" "Paie");
                     ("A-2", mkTarif "Conseil" 90 "€/h" "Audit")])
                 _ eq_refl).
    intros e [<-|[<-|[<-|[]]]]; reflexivity.
Defined.

End GrilleAny.
